(** * Verification of the smart-nodes partner transfer hook

    Shallow embedding of [src/hooks/use-smart-nodes-partner-transfer.tsx]:
    the schema check, the capacity check [validateAmount] and the
    [transfer] handler, together with the JavaScript number operations they
    rely on.

    JavaScript numbers are IEEE-754 binary64 values.  They are modelled
    with the executable specification of the Standard Library
    ([SpecFloat], precision 53, maximal exponent 1024), so every arithmetic
    step of the source rounds exactly as it does at run time. *)

From Stdlib Require Import ZArith QArith Qround Qabs Qpower Bool List String
  Ascii Lia.
From Stdlib Require Import Floats.SpecFloat.
Import ListNotations.

Local Open Scope string_scope.
Local Open Scope Z_scope.

(* ===================================================================== *)
(** ** JavaScript numbers *)
(* ===================================================================== *)

Module JsNumber.

(** The Number type: binary64. *)
Definition Number := spec_float.

Definition prec : Z := 53.
Definition emax : Z := 1024.

(** [of_Z z] is the Number nearest to the integer [z] (a numeric literal
    such as [3], or the result of reading a decimal integer). *)
Definition of_Z (z : Z) : Number := binary_normalize prec emax z 0 false.

Definition NaN : Number := S754_nan.
Definition Infinity : Number := S754_infinity false.

Definition isNaN (x : Number) : bool :=
  match x with S754_nan => true | _ => false end.

(** Arithmetic operators [+], [*], [/]. *)
Definition add : Number -> Number -> Number := SFadd prec emax.
Definition mul : Number -> Number -> Number := SFmul prec emax.
Definition div : Number -> Number -> Number := SFdiv prec emax.

(** Relational operators.  A comparison with NaN is false. *)
Definition gtb (x y : Number) : bool :=
  match SFcompare x y with Some Gt => true | _ => false end.
Definition geb (x y : Number) : bool :=
  match SFcompare x y with Some Gt | Some Eq => true | _ => false end.

(** The real value of a finite Number, as a rational. *)
Definition to_Q (x : Number) : option Q :=
  match x with
  | S754_zero _ => Some 0%Q
  | S754_finite s m e =>
      Some (inject_Z (if s then Z.neg m else Z.pos m) * Qpower 2 e)%Q
  | _ => None
  end.

(** [Math.floor]: NaN, the infinities and the zeros are returned as they
    are; a finite value is rounded towards minus infinity. *)
Definition Math_floor (x : Number) : Number :=
  match x with
  | S754_finite s m e =>
      if 0 <=? e then x
      else of_Z ((if s then Z.neg m else Z.pos m) / 2 ^ (- e))
  | _ => x
  end.

(** [BigInt(x)] for a Number [x]: the integer [x] stands for, and a
    RangeError ([None]) when [x] is not an integral Number. *)
Definition BigInt (x : Number) : option Z :=
  match x with
  | S754_zero _ => Some 0
  | S754_finite s m e =>
      let v := if s then Z.neg m else Z.pos m in
      if 0 <=? e then Some (v * 2 ^ e)
      else if v mod 2 ^ (- e) =? 0 then Some (v / 2 ^ (- e))
      else None
  | _ => None
  end.

(** [10 ** 18]: the power is an integer that binary64 represents
    exactly. *)
Definition ten_pow_18 : Number := of_Z (10 ^ 18).

(** *** Number to string ([String(x)], radix 10)

    ECMA-262, Number::toString: the digits are those of the shortest
    decimal [s * 10^(n-k)] that reads back as [x] (the closest one to [x]
    when several have that length); the notation is positional for
    [-5 <= n <= 21] and scientific otherwise. *)

(** The interval of the reals that round to the positive finite
    [m * 2^e]: half a gap on each side, the lower gap being halved at a
    power of two; the bounds belong to it when [m] is even. *)
Definition round_interval (m : positive) (e : Z) : Q * Q * bool :=
  let x := (inject_Z (Z.pos m) * Qpower 2 e)%Q in
  let up := Qpower 2 (e - 1) in
  let down :=
    if (Z.pos m =? 2 ^ (prec - 1)) && (emin prec emax <? e)
    then Qpower 2 (e - 2) else Qpower 2 (e - 1) in
  ((x - down)%Q, (x + up)%Q, Z.even (Z.pos m)).

Definition in_interval (i : Q * Q * bool) (d : Q) : bool :=
  let '(lo, hi, closed) := i in
  if closed then Qle_bool lo d && Qle_bool d hi
  else negb (Qle_bool d lo) && negb (Qle_bool hi d).

Definition Qdist (a b : Q) : Q := Qabs (a - b).

(** The integers [c] with [c * 10^j] in the interval, if any: only the
    two multiples of [10^j] around [x] can be. The closest to [x] is
    chosen, the even one on a tie. *)
Definition candidate (m : positive) (e : Z) (j : Z) : option Z :=
  let x := (inject_Z (Z.pos m) * Qpower 2 e)%Q in
  let i := round_interval m e in
  let p := Qpower 10 j in
  let c1 := Qfloor (x / p) in
  let c2 := c1 + 1 in
  let ok c := (0 <? c) && in_interval i (inject_Z c * p)%Q in
  match ok c1, ok c2 with
  | true, true =>
      let d1 := Qdist (inject_Z c1 * p) x in
      let d2 := Qdist (inject_Z c2 * p) x in
      if Qeq_bool d1 d2 then Some (if Z.even c1 then c1 else c2)
      else if Qle_bool d1 d2 then Some c1 else Some c2
  | true, false => Some c1
  | false, true => Some c2
  | false, false => None
  end.

(** Search of the largest exponent [j] that has a candidate, downwards
    from [j]. *)
Fixpoint shortest_from (fuel : nat) (m : positive) (e : Z) (j : Z)
  : option (Z * Z) :=
  match fuel with
  | O => None
  | S fuel' =>
      match candidate m e j with
      | Some c => Some (c, j)
      | None => shortest_from fuel' m e (j - 1)
      end
  end.

(** The search starts above the decimal magnitude of the value:
    [m * 2^e] and its interval lie below [2^(e + digits + 1)], and
    [log10 2 < 0.30103].  It ends at the latest on the value itself, a
    decimal whose last digit is at [10^e] when [e] is negative and at
    [10^0] otherwise. *)
Definition top_exponent (m : positive) (e : Z) : Z :=
  (e + Z.pos (digits2_pos m) + 1) * 30103 / 100000 + 1.

Definition shortest_digits (m : positive) (e : Z) : option (Z * Z) :=
  shortest_from (Z.to_nat (top_exponent m e - Z.min e 0) + 1) m e
                (top_exponent m e).

(** The decimal digits of a natural number, most significant first. *)
Definition digit_char (d : Z) : ascii := ascii_of_nat (48 + Z.to_nat d).

Fixpoint digits_fuel (fuel : nat) (c : Z) : string :=
  match fuel with
  | O => EmptyString
  | S fuel' =>
      (if c <? 10 then EmptyString else digits_fuel fuel' (c / 10))
      ++ String (digit_char (c mod 10)) EmptyString
  end.

Definition digits_of (c : Z) : string :=
  digits_fuel (S (Z.to_nat (Z.log2 c))) c.

Fixpoint zeros (n : nat) : string :=
  match n with
  | O => EmptyString
  | S n' => String "0" (zeros n')
  end.

(** The notation of a positive finite value from its digits [s] (a
    string of [k] characters) and its decimal exponent [n]. *)
Definition format_digits (s : string) (n : Z) : string :=
  let k := Z.of_nat (String.length s) in
  if (-5 <=? n) && (n <=? 21) then
    if k <=? n then s ++ zeros (Z.to_nat (n - k))
    else if 0 <? n then
      substring 0 (Z.to_nat n) s ++ "." ++
      substring (Z.to_nat n) (Z.to_nat (k - n)) s
    else "0." ++ zeros (Z.to_nat (- n)) ++ s
  else
    let e := n - 1 in
    let sign := if e <? 0 then "-" else "+" in
    let expo := digits_of (Z.abs e) in
    if k =? 1 then s ++ "e" ++ sign ++ expo
    else substring 0 1 s ++ "." ++ substring 1 (Z.to_nat (k - 1)) s
         ++ "e" ++ sign ++ expo.

Definition toString_pos (m : positive) (e : Z) : string :=
  match shortest_digits m e with
  | Some (c, j) =>
      let s := digits_of c in
      format_digits s (Z.of_nat (String.length s) + j)
  | None => EmptyString
  end.

Definition toString (x : Number) : string :=
  match x with
  | S754_nan => "NaN"
  | S754_zero _ => "0"
  | S754_infinity false => "Infinity"
  | S754_infinity true => "-Infinity"
  | S754_finite false m e => toString_pos m e
  | S754_finite true m e => "-" ++ toString_pos m e
  end.

(** *** [parseInt(string)] with no radix *)

Definition is_white_space (a : ascii) : bool :=
  let n := nat_of_ascii a in
  (n =? 32)%nat || ((9 <=? n)%nat && (n <=? 13)%nat).

Fixpoint trim_start (s : string) : string :=
  match s with
  | String a s' => if is_white_space a then trim_start s' else s
  | EmptyString => s
  end.

(** The value of a character as a digit of the radix, if it is one. *)
Definition digit_value (radix : Z) (a : ascii) : option Z :=
  let n := Z.of_nat (nat_of_ascii a) in
  let v :=
    if (48 <=? n) && (n <=? 57) then n - 48
    else if (97 <=? n) && (n <=? 122) then n - 87
    else if (65 <=? n) && (n <=? 90) then n - 55
    else radix in
  if v <? radix then Some v else None.

(** The longest prefix of digits, read as an integer; [None] when the
    prefix is empty. *)
Fixpoint read_digits (radix : Z) (s : string) (acc : option Z) : option Z :=
  match s with
  | String a s' =>
      match digit_value radix a with
      | Some v =>
          read_digits radix s'
            (Some (match acc with Some z => z * radix + v | None => v end))
      | None => acc
      end
  | EmptyString => acc
  end.

Definition parseInt (input : string) : Number :=
  let s := trim_start input in
  let '(negative, s) :=
    match s with
    | String "-" s' => (true, s')
    | String "+" s' => (false, s')
    | _ => (false, s)
    end in
  let '(radix, s) :=
    match s with
    | String "0" (String "x" s') => (16, s')
    | String "0" (String "X" s') => (16, s')
    | _ => (10, s)
    end in
  match read_digits radix s None with
  | None => NaN
  | Some 0 => S754_zero negative
  | Some z => of_Z (if negative then - z else z)
  end.

End JsNumber.

Import JsNumber.

(* ===================================================================== *)
(** ** Values, schema and collaborators *)
(* ===================================================================== *)

(** Run-time values of the hook's arguments: TypeScript types are erased,
    so the schema is what decides whether they have the declared shape. *)
Inductive JsValue :=
| JsUndefined
| JsNull
| JsBoolean (b : bool)
| JsNumber (x : Number)
| JsString (s : string)
| JsObject.

(** The arguments of [useSmartNodesPartnerTransfer] as received. *)
Record RawProps := {
  raw_referralCode : JsValue;
  raw_amount : JsValue;
  raw_bonusPlan : JsValue
}.

(** [TransferType], the type inferred from [transferSchema]. *)
Record TransferType := {
  referralCode : string;
  amount : Number;
  bonusPlan : Number
}.

Module Zod.

(** [z.string()] accepts every string, the empty one included. *)
Definition string (v : JsValue) : option String.string :=
  match v with
  | JsString s => Some s
  | _ => None
  end.

(** [z.number()] accepts the values of type number except NaN. *)
Definition number (v : JsValue) : option Number :=
  match v with
  | JsNumber x => if isNaN x then None else Some x
  | _ => None
  end.

End Zod.

(** [transferSchema.safeParse]: [None] stands for a result that carries an
    [error]. *)
Definition transferSchema_safeParse (p : RawProps) : option TransferType :=
  match Zod.string (raw_referralCode p),
        Zod.number (raw_amount p),
        Zod.number (raw_bonusPlan p) with
  | Some r, Some a, Some b =>
      Some {| referralCode := r; amount := a; bonusPlan := b |}
  | _, _, _ => None
  end.

(** Errors that reach the [catch] clause. *)
Inductive JsError :=
| NewError                     (* [throw new Error()] *)
| RangeError                   (* [BigInt] of a non-integral Number *)
| Rejection (reason : string)  (* a rejected promise of a collaborator *).

(** The settlement of an awaited promise. *)
Inductive Answer (A : Type) :=
| Returns (a : A)
| Rejects (e : JsError).
Arguments Returns {A} a.
Arguments Rejects {A} e.

(** What [getPartnerData] resolves to. *)
Record Validator := { availableSmartNodes : Number }.

(** [usePartner().data]. *)
Record PartnerData := { currentPrice : Number; paymentsWallet : string }.

(** [useUser()]. *)
Record User := { address : string }.

(** The object kept in the store under [STORAGE_KEY]. *)
Record Stored := { stored_email : string }.

Module UserOperation.
Record t := { target : string; data : string; value : Z }.
End UserOperation.

Module Purchase.
Record t := {
  partnerId : string;
  transactionHash : string;
  totalInEth : Number;
  totalInUsd : Number;
  quantity : Number;
  bonusPlan : Number;
  wallet : string;
  email : string;
  userReferralCode : string;
  transactionReferralCode : string
}.
End Purchase.

(** Everything the hook reads from outside: contexts, ambient browser
    state, and the settlements of the imported actions.  The imported
    helpers [encryptData], [isInsufficientFundsError], [isRejectedError]
    and the constant [STORAGE_KEY] are not part of this file of the
    repository and are taken as they come. *)
Record World := {
  getPartnerId : option string;
  data : option PartnerData;
  user : option User;
  STORAGE_KEY : string;
  store_get : string -> option Stored;
  searchParams_get : string -> option string;
  getPartnerData : string -> Answer (option Validator);
  validateNetwork : string -> Answer bool;
  getConversionRate : Answer Number;
  sendUserOperationAsync : UserOperation.t -> Answer string;
  getUserReferralCode : string -> string -> Answer string;
  purchaseTracker : Purchase.t -> Answer bool;
  encryptData : string -> string -> string;
  isInsufficientFundsError : JsError -> bool;
  isRejectedError : JsError -> bool
}.

(** Truthiness of a value that is a string, [null] or [undefined]. *)
Definition truthy (v : option string) : bool :=
  match v with
  | Some s => negb (String.eqb s EmptyString)
  | None => false
  end.

(* ===================================================================== *)
(** ** Effects *)
(* ===================================================================== *)

(** The callback handed to [setTimeout]; it closes over [email]. *)
Inductive Callback :=
| TestSuccessCallback (email : string).

(** Observable actions, in the order they happen. *)
Inductive Event :=
| PreventDefault
| GetPartnerData (partnerId : string)
| StoreGet (key : string)
| SetTimeout (callback : Callback) (ms : Z)
| ValidateNetwork (chain : string)
| GetConversionRate
| AddBeforeUnloadListener
| SendUserOperation (uo : UserOperation.t)
| GetUserReferralCode (address email : string)
| PurchaseTracker (purchase : Purchase.t)
| RemoveBeforeUnloadListener
| Navigate (operationResult : string)
| ConsoleLog (e : JsError).

(** The hook's two state cells, the registration of [preventCloseTab] on
    the window, and the log of actions. *)
Record HookState := {
  loading : bool;
  error : string;
  beforeunload : bool;
  log : list Event
}.

Definition initial : HookState :=
  {| loading := false; error := EmptyString; beforeunload := false; log := [] |}.

Inductive Completion (A : Type) :=
| Normal (a : A)
| Throw (e : JsError).
Arguments Normal {A} a.
Arguments Throw {A} e.

(** Computations over the hook state that may throw. *)
Definition M (A : Type) : Type := HookState -> Completion A * HookState.

Definition ret {A} (a : A) : M A := fun st => (Normal a, st).

Definition bind {A B} (c : M A) (k : A -> M B) : M B :=
  fun st =>
    match c st with
    | (Normal a, st') => k a st'
    | (Throw e, st') => (Throw e, st')
    end.

Definition throw {A} (e : JsError) : M A := fun st => (Throw e, st).

Declare Scope js_scope.
Delimit Scope js_scope with js.
Notation "x <- c ;; k" := (bind c (fun x => k))
  (at level 61, c at next level, right associativity) : js_scope.
Notation "c ;; k" := (bind c (fun _ => k))
  (at level 61, right associativity) : js_scope.
Local Open Scope js_scope.

(** [try { body } catch (e) { handler } finally { final }]. *)
Definition try_catch_finally {A}
  (body : M A) (handler : JsError -> M A) (final : M unit) : M A :=
  fun st =>
    let '(r, st1) :=
      match body st with
      | (Normal a, st') => (Normal a, st')
      | (Throw e, st') => handler e st'
      end in
    match final st1 with
    | (Normal _, st2) => (r, st2)
    | (Throw e, st2) => (Throw e, st2)
    end.

Definition emit (ev : Event) : M unit :=
  fun st =>
    (Normal tt,
     {| loading := loading st; error := error st;
        beforeunload := beforeunload st; log := log st ++ [ev] |}).

Definition setLoading (b : bool) : M unit :=
  fun st =>
    (Normal tt,
     {| loading := b; error := error st;
        beforeunload := beforeunload st; log := log st |}).

Definition setError (msg : string) : M unit :=
  fun st =>
    (Normal tt,
     {| loading := loading st; error := msg;
        beforeunload := beforeunload st; log := log st |}).

Definition set_beforeunload (b : bool) : M unit :=
  fun st =>
    (Normal tt,
     {| loading := loading st; error := error st;
        beforeunload := b; log := log st |}).

(** [window.addEventListener("beforeunload", preventCloseTab)] and its
    removal.  [preventCloseTab] is a closure of the render [transfer]
    belongs to, so one invocation adds and removes the same listener, and
    the flag [beforeunload] stands for the listener of the invocation
    under way: a listener left behind by an earlier invocation is another
    closure, which a later invocation neither adds nor removes.  The
    statements about the flag are therefore made for invocations that
    start with no listener registered. *)
Definition addEventListener_beforeunload : M unit :=
  emit AddBeforeUnloadListener ;; set_beforeunload true.

Definition removeEventListener_beforeunload : M unit :=
  emit RemoveBeforeUnloadListener ;; set_beforeunload false.

(** [await] of a call: the call is made, then its settlement is the
    value or the exception. *)
Definition await {A} (ev : Event) (a : Answer A) : M A :=
  emit ev ;;
  match a with
  | Returns v => ret v
  | Rejects e => throw e
  end.

(* ===================================================================== *)
(** ** The hook *)
(* ===================================================================== *)

(** Line 51:
    [parseInt(String(amount >= 3 ? amount / 3 : 0))]. *)
Definition bonusValue (amount : Number) : Number :=
  parseInt (toString (if geb amount (of_Z 3)
                      then div amount (of_Z 3) else of_Z 0)).

(** Lines 44-57. *)
Definition validateAmount (w : World) (amount : Number) : M bool :=
  let partnerId := getPartnerId w in
  match partnerId with
  | None => ret false
  | Some partnerId =>
      if String.eqb partnerId EmptyString then ret false
      else
        validator <- await (GetPartnerData partnerId)
                           (getPartnerData w partnerId) ;;
        match validator with
        | None => ret false
        | Some validator =>
            if gtb (add amount (bonusValue amount))
                   (availableSmartNodes validator)
            then ret false
            else ret true
        end
  end.

(** Lines 127-131, the amount in wei; [None] is the RangeError of
    [BigInt]. *)
Definition weiValue (currentPrice amount conversionRate : Number)
  : option Z :=
  let totalInUsd := mul currentPrice amount in
  let totalInEth := div totalInUsd conversionRate in
  BigInt (Math_floor (mul totalInEth ten_pow_18)).

Definition testFlag : string := "testSuccessModalOption".

(** The body of the timer callback, lines 102-110. *)
Definition run_callback (w : World) (cb : Callback) : M unit :=
  match cb with
  | TestSuccessCallback email =>
      let operationResult := encryptData w "0x123456789abcdef" email in
      emit (Navigate operationResult) ;;
      setLoading false
  end.

Definition msg_schema : string :=
  "Oops! It looks like you didn't fill in the amount correctly".
Definition msg_capacity : string :=
  "Oops! It looks like you are trying to buy more than we have available.".
Definition msg_email : string := "Oops! Error to retrieve your email".
Definition msg_network : string :=
  "Oops! Looks like you're using a wrong network".
Definition msg_purchase : string :=
  "Oops! Looks like an error occurred while trying to complete your purchase.".
Definition msg_funds : string :=
  "Oops! You do not have sufficient funds to complete your purchase.".
Definition msg_rejected : string :=
  "Oops! Looks like you rejected the transaction signature.".

(** Lines 114-166, the [try] block. *)
Definition transfer_try (w : World) (req : TransferType) (email : string)
  : M unit :=
  usingRightNetwork <- await (ValidateNetwork "arbitrum")
                             (validateNetwork w "arbitrum") ;;
  if negb usingRightNetwork then
    setError msg_network ;;
    setLoading false
  else
    match user w, data w, truthy (getPartnerId w), getPartnerId w with
    | Some user, Some data, true, Some partnerId =>
        let totalInUsd := mul (currentPrice data) (amount req) in
        conversionRate <- await GetConversionRate (getConversionRate w) ;;
        let totalInEth := div totalInUsd conversionRate in
        match BigInt (Math_floor (mul totalInEth ten_pow_18)) with
        | None => throw RangeError
        | Some weiValue =>
            addEventListener_beforeunload ;;
            let uo := {| UserOperation.target := paymentsWallet data;
                         UserOperation.data := "0x";
                         UserOperation.value := weiValue |} in
            hash <- await (SendUserOperation uo)
                          (sendUserOperationAsync w uo) ;;
            userReferralCode <-
              await (GetUserReferralCode (address user) email)
                    (getUserReferralCode w (address user) email) ;;
            let purchase :=
              {| Purchase.partnerId := partnerId;
                 Purchase.transactionHash := hash;
                 Purchase.totalInEth := totalInEth;
                 Purchase.totalInUsd := totalInUsd;
                 Purchase.quantity := amount req;
                 Purchase.bonusPlan := bonusPlan req;
                 Purchase.wallet := address user;
                 Purchase.email := email;
                 Purchase.userReferralCode := userReferralCode;
                 Purchase.transactionReferralCode := referralCode req |} in
            status <- await (PurchaseTracker purchase)
                            (purchaseTracker w purchase) ;;
            removeEventListener_beforeunload ;;
            let operationResult := encryptData w hash email in
            emit (Navigate operationResult) ;;
            if negb status then setError msg_purchase else ret tt
        end
    | _, _, _, _ => throw NewError
    end.

(** Lines 167-181, the [catch] clause. *)
Definition transfer_catch (w : World) (e : JsError) : M unit :=
  (if truthy (searchParams_get w "debugging")
   then emit (ConsoleLog e) else ret tt) ;;
  if isInsufficientFundsError w e then setError msg_funds
  else if isRejectedError w e then setError msg_rejected
  else setError msg_purchase.

(** Lines 65-185. *)
Definition transfer (p : RawProps) (w : World) : M unit :=
  emit PreventDefault ;;
  setLoading true ;;
  setError EmptyString ;;
  match transferSchema_safeParse p with
  | None =>
      setError msg_schema ;;
      setLoading false
  | Some req =>
      validAmount <- validateAmount w (amount req) ;;
      if negb validAmount then
        setError msg_capacity ;;
        setLoading false
      else
        emit (StoreGet (STORAGE_KEY w)) ;;
        match store_get w (STORAGE_KEY w) with
        | None =>
            setError msg_email ;;
            setLoading false
        | Some storage =>
            let email := stored_email storage in
            (if truthy (searchParams_get w testFlag)
             then emit (SetTimeout (TestSuccessCallback email) (3 * 1000))
             else ret tt) ;;
            try_catch_finally
              (transfer_try w req email)
              (transfer_catch w)
              (setLoading false)
        end
  end.


(* ===================================================================== *)
(** ** Observations on a run *)
(* ===================================================================== *)

(** The actions of one invocation of [transfer] on a fresh hook state:
    the calls [transfer] itself makes, the registration of a timer
    included.  What a registered timer does when it fires later is not
    part of this log; it is [callback_events] below. *)
Definition events (p : RawProps) (w : World) : list Event :=
  log (snd (transfer p w initial)).

(** The user operations handed to the wallet. *)
Definition submissions (l : list Event) : list UserOperation.t :=
  flat_map (fun ev => match ev with
                      | SendUserOperation uo => [uo]
                      | _ => []
                      end) l.

(** The purchases handed to [purchaseTracker]. *)
Definition ledger_records (l : list Event) : list Purchase.t :=
  flat_map (fun ev => match ev with
                      | PurchaseTracker r => [r]
                      | _ => []
                      end) l.

(** The timers registered with [setTimeout]. *)
Definition timers (l : list Event) : list (Callback * Z) :=
  flat_map (fun ev => match ev with
                      | SetTimeout cb ms => [(cb, ms)]
                      | _ => []
                      end) l.

(** The bundles passed to [navigate]. *)
Definition navigations (l : list Event) : list string :=
  flat_map (fun ev => match ev with
                      | Navigate r => [r]
                      | _ => []
                      end) l.

(** The amount as the specification words it, in exact arithmetic:
    [floor((currentPrice * quantity / rate) * 10^18)]. *)
Definition spec_amount (currentPrice quantity rate : Q) : Z :=
  Qfloor ((currentPrice * quantity / rate) * inject_Z (10 ^ 18)).

(** The capacity test of [validateAmount] on a whole quantity [q] against
    whole capacities [cs], compared with the same test on the integers:
    [q + floor(q / 3) > c], the bonus being 0 below 3. *)
Definition upto (n : nat) : list Z := map Z.of_nat (seq 0 (S n)).

Definition capacity_test_agrees (q : Z) (cs : list Z) : bool :=
  let total := add (of_Z q) (bonusValue (of_Z q)) in
  forallb (fun c => Bool.eqb (gtb total (of_Z c))
                             (c <? q + (if 3 <=? q then q / 3 else 0)))
          cs.

(** The mantissa of the Number 3, that is [3 * 2^51]. *)
Definition three_mantissa : positive := 6755399441055744.

(** A Number that is not a negative finite value: what [x >= 0]
    guarantees, and what the arithmetic of the conversion preserves. *)
Definition not_negative (x : Number) : Prop :=
  match x with
  | S754_finite true _ _ => False
  | _ => True
  end.

(* ===================================================================== *)
(** ** Concrete worlds *)
(* ===================================================================== *)

(** A purchase in which every collaborator answers: partner price
    [price], conversion rate [rate], [avail] nodes left. *)
Definition sample_world (price rate avail : Z) : World :=
  {| getPartnerId := Some "partner-1";
     data := Some {| currentPrice := of_Z price;
                     paymentsWallet := "0xPAYMENTS" |};
     user := Some {| address := "0xUSER" |};
     STORAGE_KEY := "smart-nodes";
     store_get := fun _ => Some {| stored_email := "user@example.org" |};
     searchParams_get := fun _ => None;
     getPartnerData :=
       fun _ => Returns (Some {| availableSmartNodes := of_Z avail |});
     validateNetwork := fun _ => Returns true;
     getConversionRate := Returns (of_Z rate);
     sendUserOperationAsync := fun _ => Returns "0xHASH";
     getUserReferralCode := fun _ _ => Returns "REF-NEW";
     purchaseTracker := fun _ => Returns true;
     encryptData := fun hash email => hash ++ "|" ++ email;
     isInsufficientFundsError :=
       fun e => match e with
                | Rejection "insufficient funds" => true
                | _ => false
                end;
     isRejectedError :=
       fun e => match e with
                | Rejection "user rejected" => true
                | _ => false
                end |}.


Definition with_partnerData (a : Answer (option Validator)) (w : World)
  : World :=
  {| getPartnerId := getPartnerId w;
     data := data w; user := user w; STORAGE_KEY := STORAGE_KEY w;
     store_get := store_get w; searchParams_get := searchParams_get w;
     getPartnerData := fun _ => a;
     validateNetwork := validateNetwork w;
     getConversionRate := getConversionRate w;
     sendUserOperationAsync := sendUserOperationAsync w;
     getUserReferralCode := getUserReferralCode w;
     purchaseTracker := purchaseTracker w;
     encryptData := encryptData w;
     isInsufficientFundsError := isInsufficientFundsError w;
     isRejectedError := isRejectedError w |}.

Definition with_query (q : string -> option string) (w : World) : World :=
  {| getPartnerId := getPartnerId w;
     data := data w; user := user w; STORAGE_KEY := STORAGE_KEY w;
     store_get := store_get w; searchParams_get := q;
     getPartnerData := getPartnerData w;
     validateNetwork := validateNetwork w;
     getConversionRate := getConversionRate w;
     sendUserOperationAsync := sendUserOperationAsync w;
     getUserReferralCode := getUserReferralCode w;
     purchaseTracker := purchaseTracker w;
     encryptData := encryptData w;
     isInsufficientFundsError := isInsufficientFundsError w;
     isRejectedError := isRejectedError w |}.

Definition with_send (a : Answer string) (w : World) : World :=
  {| getPartnerId := getPartnerId w;
     data := data w; user := user w; STORAGE_KEY := STORAGE_KEY w;
     store_get := store_get w; searchParams_get := searchParams_get w;
     getPartnerData := getPartnerData w;
     validateNetwork := validateNetwork w;
     getConversionRate := getConversionRate w;
     sendUserOperationAsync := fun _ => a;
     getUserReferralCode := getUserReferralCode w;
     purchaseTracker := purchaseTracker w;
     encryptData := encryptData w;
     isInsufficientFundsError := isInsufficientFundsError w;
     isRejectedError := isRejectedError w |}.

Definition with_referral (a : Answer string) (w : World) : World :=
  {| getPartnerId := getPartnerId w;
     data := data w; user := user w; STORAGE_KEY := STORAGE_KEY w;
     store_get := store_get w; searchParams_get := searchParams_get w;
     getPartnerData := getPartnerData w;
     validateNetwork := validateNetwork w;
     getConversionRate := getConversionRate w;
     sendUserOperationAsync := sendUserOperationAsync w;
     getUserReferralCode := fun _ _ => a;
     purchaseTracker := purchaseTracker w;
     encryptData := encryptData w;
     isInsufficientFundsError := isInsufficientFundsError w;
     isRejectedError := isRejectedError w |}.

Definition with_tracker (a : Answer bool) (w : World) : World :=
  {| getPartnerId := getPartnerId w;
     data := data w; user := user w; STORAGE_KEY := STORAGE_KEY w;
     store_get := store_get w; searchParams_get := searchParams_get w;
     getPartnerData := getPartnerData w;
     validateNetwork := validateNetwork w;
     getConversionRate := getConversionRate w;
     sendUserOperationAsync := sendUserOperationAsync w;
     getUserReferralCode := getUserReferralCode w;
     purchaseTracker := fun _ => a;
     encryptData := encryptData w;
     isInsufficientFundsError := isInsufficientFundsError w;
     isRejectedError := isRejectedError w |}.

(** A request for [quantity] nodes with referral code [code]. *)
Definition sample_props (code : string) (quantity : Z) : RawProps :=
  {| raw_referralCode := JsString code;
     raw_amount := JsNumber (of_Z quantity);
     raw_bonusPlan := JsNumber (of_Z 1) |}.

(** The query string [?testSuccessModalOption=v]. *)
Definition query_with_test_flag (v : string) : string -> option string :=
  fun name => if String.eqb name testFlag then Some v else None.


(** The scenarios the statements below are run on. *)
Definition props_10 : RawProps := sample_props "abc" 10.
Definition props_2 : RawProps := sample_props "abc" 2.
Definition props_1 : RawProps := sample_props "abc" 1.
Definition props_minus_1 : RawProps := sample_props "abc" (-1).
Definition props_empty_code : RawProps := sample_props EmptyString 1.
Definition props_text_amount : RawProps :=
  {| raw_referralCode := JsString "abc";
     raw_amount := JsString "10";
     raw_bonusPlan := JsNumber (of_Z 1) |}.

Definition parsed (quantity : Z) : TransferType :=
  {| referralCode := "abc"; amount := of_Z quantity; bonusPlan := of_Z 1 |}.

Definition world_5_2000 : World := sample_world 5 2000 100.
Definition world_100_3000 : World := sample_world 100 3000 100.
Definition world_one_left : World := sample_world 5 2000 1.
Definition world_user_rejects : World :=
  with_send (Rejects (Rejection "user rejected")) world_5_2000.
Definition world_referral_down : World :=
  with_referral (Rejects (Rejection "referral service down")) world_5_2000.
Definition world_ledger_refuses : World :=
  with_tracker (Returns false) world_5_2000.
Definition world_ledger_down : World :=
  with_tracker (Rejects (Rejection "ledger down")) world_5_2000.
Definition world_test_flag (v : string) : World :=
  with_query (query_with_test_flag v) world_5_2000.

(** The purchase the ledger is asked to record in the running example. *)
Definition purchase_example : Purchase.t :=
  {| Purchase.partnerId := "partner-1";
     Purchase.transactionHash := "0xHASH";
     Purchase.totalInEth := div (mul (of_Z 5) (of_Z 10)) (of_Z 2000);
     Purchase.totalInUsd := mul (of_Z 5) (of_Z 10);
     Purchase.quantity := of_Z 10;
     Purchase.bonusPlan := of_Z 1;
     Purchase.wallet := "0xUSER";
     Purchase.email := "user@example.org";
     Purchase.userReferralCode := "REF-NEW";
     Purchase.transactionReferralCode := "abc" |}.

(** The operation the wallet is asked to send in the running example. *)
Definition operation_example : UserOperation.t :=
  {| UserOperation.target := "0xPAYMENTS";
     UserOperation.data := "0x";
     UserOperation.value := 25000000000000000 |}.

(** A hook whose first attempt is suspended at the wallet call: [loading]
    is set, the listener is registered and the operation has been handed
    to the wallet, which has not settled yet. *)
Definition awaiting_wallet : HookState :=
  {| loading := true; error := EmptyString; beforeunload := true;
     log := [PreventDefault; GetPartnerData "partner-1";
             StoreGet "smart-nodes"; ValidateNetwork "arbitrum";
             GetConversionRate; AddBeforeUnloadListener;
             SendUserOperation operation_example] |}.

(* ===================================================================== *)
(** ** Further observations and scenarios *)
(* ===================================================================== *)

(** The kinds of action, whatever their arguments. *)
Inductive Kind :=
| KPreventDefault | KGetPartnerData | KStoreGet | KSetTimeout
| KValidateNetwork | KGetConversionRate | KAddBeforeUnloadListener
| KSendUserOperation | KGetUserReferralCode | KPurchaseTracker
| KRemoveBeforeUnloadListener | KNavigate | KConsoleLog.

Definition kind_of (ev : Event) : Kind :=
  match ev with
  | PreventDefault => KPreventDefault
  | GetPartnerData _ => KGetPartnerData
  | StoreGet _ => KStoreGet
  | SetTimeout _ _ => KSetTimeout
  | ValidateNetwork _ => KValidateNetwork
  | GetConversionRate => KGetConversionRate
  | AddBeforeUnloadListener => KAddBeforeUnloadListener
  | SendUserOperation _ => KSendUserOperation
  | GetUserReferralCode _ _ => KGetUserReferralCode
  | PurchaseTracker _ => KPurchaseTracker
  | RemoveBeforeUnloadListener => KRemoveBeforeUnloadListener
  | Navigate _ => KNavigate
  | ConsoleLog _ => KConsoleLog
  end.

Definition Kind_eqb (a b : Kind) : bool :=
  match a, b with
  | KPreventDefault, KPreventDefault
  | KGetPartnerData, KGetPartnerData
  | KStoreGet, KStoreGet
  | KSetTimeout, KSetTimeout
  | KValidateNetwork, KValidateNetwork
  | KGetConversionRate, KGetConversionRate
  | KAddBeforeUnloadListener, KAddBeforeUnloadListener
  | KSendUserOperation, KSendUserOperation
  | KGetUserReferralCode, KGetUserReferralCode
  | KPurchaseTracker, KPurchaseTracker
  | KRemoveBeforeUnloadListener, KRemoveBeforeUnloadListener
  | KNavigate, KNavigate
  | KConsoleLog, KConsoleLog => true
  | _, _ => false
  end.

(** How many actions of a kind a log holds. *)
Definition occurrences (k : Kind) (l : list Event) : nat :=
  List.length (filter (fun ev => Kind_eqb (kind_of ev) k) l).

(** The log without what the query string alone decides: the timer of
    the test flag and the [console.log] of the debugging flag. *)
Definition without_query_effects (l : list Event) : list Event :=
  filter (fun ev => match ev with
                    | SetTimeout _ _ | ConsoleLog _ => false
                    | _ => true
                    end) l.

(** The message the [catch] clause chooses for an error, lines 171-181. *)
Definition catch_message (w : World) (e : JsError) : string :=
  if isInsufficientFundsError w e then msg_funds
  else if isRejectedError w e then msg_rejected
  else msg_purchase.

(** Every text [transfer] passes to [setError]. *)
Definition messages : list string :=
  [EmptyString; msg_schema; msg_capacity; msg_email; msg_network;
   msg_purchase; msg_funds; msg_rejected].

Definition with_store (f : string -> option Stored) (w : World) : World :=
  {| getPartnerId := getPartnerId w;
     data := data w; user := user w; STORAGE_KEY := STORAGE_KEY w;
     store_get := f; searchParams_get := searchParams_get w;
     getPartnerData := getPartnerData w;
     validateNetwork := validateNetwork w;
     getConversionRate := getConversionRate w;
     sendUserOperationAsync := sendUserOperationAsync w;
     getUserReferralCode := getUserReferralCode w;
     purchaseTracker := purchaseTracker w;
     encryptData := encryptData w;
     isInsufficientFundsError := isInsufficientFundsError w;
     isRejectedError := isRejectedError w |}.

Definition with_network (a : Answer bool) (w : World) : World :=
  {| getPartnerId := getPartnerId w;
     data := data w; user := user w; STORAGE_KEY := STORAGE_KEY w;
     store_get := store_get w; searchParams_get := searchParams_get w;
     getPartnerData := getPartnerData w;
     validateNetwork := fun _ => a;
     getConversionRate := getConversionRate w;
     sendUserOperationAsync := sendUserOperationAsync w;
     getUserReferralCode := getUserReferralCode w;
     purchaseTracker := purchaseTracker w;
     encryptData := encryptData w;
     isInsufficientFundsError := isInsufficientFundsError w;
     isRejectedError := isRejectedError w |}.

Definition with_rate (a : Answer Number) (w : World) : World :=
  {| getPartnerId := getPartnerId w;
     data := data w; user := user w; STORAGE_KEY := STORAGE_KEY w;
     store_get := store_get w; searchParams_get := searchParams_get w;
     getPartnerData := getPartnerData w;
     validateNetwork := validateNetwork w;
     getConversionRate := a;
     sendUserOperationAsync := sendUserOperationAsync w;
     getUserReferralCode := getUserReferralCode w;
     purchaseTracker := purchaseTracker w;
     encryptData := encryptData w;
     isInsufficientFundsError := isInsufficientFundsError w;
     isRejectedError := isRejectedError w |}.

Definition with_user (o : option User) (w : World) : World :=
  {| getPartnerId := getPartnerId w;
     data := data w; user := o; STORAGE_KEY := STORAGE_KEY w;
     store_get := store_get w; searchParams_get := searchParams_get w;
     getPartnerData := getPartnerData w;
     validateNetwork := validateNetwork w;
     getConversionRate := getConversionRate w;
     sendUserOperationAsync := sendUserOperationAsync w;
     getUserReferralCode := getUserReferralCode w;
     purchaseTracker := purchaseTracker w;
     encryptData := encryptData w;
     isInsufficientFundsError := isInsufficientFundsError w;
     isRejectedError := isRejectedError w |}.

Definition world_no_email : World := with_store (fun _ => None) world_5_2000.
Definition world_wrong_network : World :=
  with_network (Returns false) world_5_2000.
Definition world_lookup_rejects : World :=
  with_partnerData (Rejects (Rejection "catalog down")) world_5_2000.
Definition world_rate_down : World :=
  with_rate (Rejects (Rejection "oracle down")) world_5_2000.
Definition world_out_of_funds : World :=
  with_send (Rejects (Rejection "insufficient funds")) world_5_2000.
Definition world_signed_out : World := with_user None world_5_2000.


(** What the callbacks of the timers registered in [l] do once they
    fire, lines 102-110: [transfer] only registers them. *)
Definition callback_events (w : World) (l : list Event) : list Event :=
  flat_map (fun t => log (snd (run_callback w (fst t) initial))) (timers l).

(** The bundles the timers of [l] pass to [navigate] once they fire. *)
Definition scheduled_navigations (w : World) (l : list Event)
  : list string :=
  navigations (callback_events w l).

(** A Number whose mantissa has at most 53 bits, as every Number that
    the arithmetic produces has. *)
Definition mantissa_fits (x : Number) : Prop :=
  match x with
  | S754_finite _ m _ => Z.pos m < 2 ^ 53
  | _ => True
  end.

(** [x] is a finite Number whose real value is [q]. *)
Definition represents (x : Number) (q : Q) : bool :=
  match to_Q x with
  | Some q' => Qeq_bool q' q
  | None => false
  end.

(** The bonus and the capacity test as the specification words them, in
    exact arithmetic: [bonus = floor(quantity / 3)] when [quantity >= 3],
    else [0]; the request is refused when
    [quantity + bonus > availableCapacity]. *)
Definition spec_bonus (quantity : Q) : Z :=
  if Qle_bool 3 quantity then Qfloor (quantity / 3) else 0.

Definition spec_capacity_exceeded (quantity availableCapacity : Q) : bool :=
  negb (Qle_bool (quantity + inject_Z (spec_bonus quantity))
                 availableCapacity).

(** 3e21 nodes asked for, 3.5e21 left. *)
Definition props_3e21 : RawProps := sample_props "abc" (3 * 10 ^ 21).
Definition world_3e21 : World := sample_world 5 2000 (35 * 10 ^ 20).

(** The Number next above 3, that is [3 + 2^-51], asked for with 4 nodes
    left. *)
Definition amount_above_3 : Number :=
  S754_finite false 6755399441055745 (-51).
Definition props_above_3 : RawProps :=
  {| raw_referralCode := JsString "abc";
     raw_amount := JsNumber amount_above_3;
     raw_bonusPlan := JsNumber (of_Z 1) |}.
Definition world_four_left : World := sample_world 5 2000 4.

(* ===================================================================== *)
(** ** Proof infrastructure *)
(* ===================================================================== *)

Local Open Scope list_scope.

(** Number operations stay folded while the control flow is unfolded. *)
Arguments add : simpl never.
Arguments mul : simpl never.
Arguments div : simpl never.
Arguments gtb : simpl never.
Arguments geb : simpl never.
Arguments of_Z : simpl never.
Arguments Math_floor : simpl never.
Arguments BigInt : simpl never.
Arguments bonusValue : simpl never.
Arguments ten_pow_18 : simpl never.

Ltac unfold_flow :=
  unfold events, transfer, transfer_try, transfer_catch, validateAmount,
    try_catch_finally, addEventListener_beforeunload,
    removeEventListener_beforeunload, await, bind, emit, setLoading,
    setError, set_beforeunload, ret, throw in *.

(** Case analysis on whatever the flow inspects next. *)
Ltac next_case :=
  match goal with
  | |- context [match ?x with _ => _ end] =>
      lazymatch x with
      | context [match _ with _ => _ end] => fail
      | _ => destruct x eqn:?
      end
  | H : context [match ?x with _ => _ end] |- _ =>
      lazymatch x with
      | context [match _ with _ => _ end] => fail
      | _ => destruct x eqn:?
      end
  end.

Ltac all_paths := repeat (cbn in *; try next_case).

(** Clean-up of the facts gathered along a path. *)
Ltac tidy_step :=
  match goal with
  | H : Returns _ = Returns _ |- _ => injection H as H
  | H : Rejects _ = Rejects _ |- _ => injection H as H
  | H : Some _ = Some _ |- _ => injection H as H
  | H : _ \/ _ |- _ => destruct H
  | H : False |- _ => destruct H
  | H1 : ?t = Returns _, H2 : ?t = Returns _ |- _ => rewrite H1 in H2
  | H1 : ?t = Returns _, H2 : ?t = Rejects _ |- _ => rewrite H1 in H2
  | H1 : ?t = Rejects _, H2 : ?t = Returns _ |- _ => rewrite H1 in H2
  end.

Ltac tidy :=
  repeat first [progress subst | tidy_step]; cbn in *; try congruence.

Lemma eqb_empty_false (s : string) :
  s <> EmptyString -> String.eqb s EmptyString = false.
Proof. intros H. destruct s; [congruence | reflexivity]. Qed.

Lemma truthy_Some (s : string) :
  s <> EmptyString -> truthy (Some s) = true.
Proof. intros H. unfold truthy. now rewrite eqb_empty_false. Qed.

Lemma truthy_inv (o : option string) :
  truthy o = true -> exists s, o = Some s /\ s <> EmptyString.
Proof.
  destruct o as [s|]; cbn; [|discriminate].
  destruct s; cbn; [discriminate|]. intros _. eexists. split; [reflexivity|discriminate].
Qed.

(* ===================================================================== *)
(** ** Aborts before the wallet is reached *)
(* ===================================================================== *)

(** A schema error ends the attempt after [preventDefault], with the
    schema message and no call at all. *)
Lemma transfer_schema_error (p : RawProps) (w : World) (st : HookState) :
  transferSchema_safeParse p = None ->
  transfer p w st =
    (Normal tt,
     {| loading := false; error := msg_schema;
        beforeunload := beforeunload st;
        log := log st ++ [PreventDefault] |}).
Proof.
  intros Hp. unfold_flow. cbn. rewrite Hp. reflexivity.
Qed.



(** More nodes asked for, bonus included, than the partner has left. *)
Lemma transfer_over_capacity (p : RawProps) (w : World) (st : HookState)
  req pid v :
  transferSchema_safeParse p = Some req ->
  getPartnerId w = Some pid -> pid <> EmptyString ->
  getPartnerData w pid = Returns (Some v) ->
  gtb (add (amount req) (bonusValue (amount req)))
      (availableSmartNodes v) = true ->
  transfer p w st =
    (Normal tt,
     {| loading := false; error := msg_capacity;
        beforeunload := beforeunload st;
        log := log st ++ [PreventDefault; GetPartnerData pid] |}).
Proof.
  intros Hp Hid Hne Hd Hgt. unfold_flow. cbn.
  rewrite Hp, Hid, (eqb_empty_false _ Hne), Hd. cbn. rewrite Hgt. cbn.
  rewrite <- app_assoc. reflexivity.
Qed.

(** On whole quantities up to 200 and whole capacities up to 300, the
    test [amount + bonusValue > availableSmartNodes] on Numbers is the test
    [q + floor(q / 3) > c] on integers. *)
Lemma capacity_test_on_small_integers :
  forallb (fun q => capacity_test_agrees q (upto 300)) (upto 200) = true.
Proof. vm_compute. reflexivity. Qed.

(** Where the capacity test of line 52 fires, that is, where the binary64
    sum [amount + bonusValue] is greater than [availableSmartNodes], the
    attempt ends with the capacity message; the only call made is the
    partner lookup, so the wallet is never invoked. *)
Theorem insufficient_capacity_aborts (p : RawProps) (w : World)
  (st : HookState) req pid v :
  transferSchema_safeParse p = Some req ->
  getPartnerId w = Some pid -> pid <> EmptyString ->
  getPartnerData w pid = Returns (Some v) ->
  gtb (add (amount req) (bonusValue (amount req)))
      (availableSmartNodes v) = true ->
  fst (transfer p w st) = Normal tt /\
  error (snd (transfer p w st)) = msg_capacity /\
  loading (snd (transfer p w st)) = false /\
  log (snd (transfer p w st)) = log st ++ [PreventDefault; GetPartnerData pid] /\
  submissions (log (snd (transfer p w st))) = submissions (log st).
Proof.
  intros Hp Hid Hne Hd Hgt.
  rewrite (transfer_over_capacity p w st req pid v Hp Hid Hne Hd Hgt). cbn.
  repeat split. unfold submissions. rewrite flat_map_app. cbn.
  now rewrite app_nil_r.
Qed.

(** The scenario of the specification: two nodes asked for, one left. *)
Lemma insufficient_capacity_aborts_witness :
  fst (transfer props_2 world_one_left initial) = Normal tt /\
  error (snd (transfer props_2 world_one_left initial)) = msg_capacity /\
  loading (snd (transfer props_2 world_one_left initial)) = false /\
  log (snd (transfer props_2 world_one_left initial)) =
    log initial ++ [PreventDefault; GetPartnerData "partner-1"] /\
  submissions (log (snd (transfer props_2 world_one_left initial))) =
    submissions (log initial).
Proof.
  apply (insufficient_capacity_aborts props_2 world_one_left initial
           (parsed 2) "partner-1" {| availableSmartNodes := of_Z 1 |}).
  - reflexivity.
  - reflexivity.
  - discriminate.
  - reflexivity.
  - vm_compute. reflexivity.
Defined.

(** C2, the failing inputs. A request for 3e21 nodes with 3.5e21 left,
    and a request for [3 + 2^-51] nodes with 4 left: the Numbers stand for
    exactly these quantities, quantity plus bonus exceeds the capacity in
    exact arithmetic, and yet the capacity test of line 52 does not fire:
    the operation is handed to the wallet and the purchase completes
    without a message.  In the first request the bonus is 1 instead of
    1e21 (line 51); in the second the sum [amount + bonusValue] is rounded
    down to 4. *)
Theorem capacity_exceeded_but_submitted :
  (represents (of_Z (3 * 10 ^ 21)) (inject_Z (3 * 10 ^ 21)) = true /\
   represents (of_Z (35 * 10 ^ 20)) (inject_Z (35 * 10 ^ 20)) = true /\
   spec_capacity_exceeded (inject_Z (3 * 10 ^ 21))
                          (inject_Z (35 * 10 ^ 20)) = true /\
   bonusValue (of_Z (3 * 10 ^ 21)) = of_Z 1 /\
   submissions (events props_3e21 world_3e21) =
     [ {| UserOperation.target := "0xPAYMENTS";
          UserOperation.data := "0x";
          UserOperation.value := 7500000000000000539515709189649334272 |} ] /\
   transfer props_3e21 world_3e21 initial =
     (Normal tt,
      {| loading := false; error := EmptyString; beforeunload := false;
         log := events props_3e21 world_3e21 |})) /\
  (represents amount_above_3 (3 + (1 # 2251799813685248)) = true /\
   represents (of_Z 4) (inject_Z 4) = true /\
   spec_capacity_exceeded (3 + (1 # 2251799813685248))
                          (inject_Z 4) = true /\
   bonusValue amount_above_3 = of_Z 1 /\
   add amount_above_3 (of_Z 1) = of_Z 4 /\
   submissions (events props_above_3 world_four_left) =
     [ {| UserOperation.target := "0xPAYMENTS";
          UserOperation.data := "0x";
          UserOperation.value := 7500000000000001 |} ] /\
   transfer props_above_3 world_four_left initial =
     (Normal tt,
      {| loading := false; error := EmptyString; beforeunload := false;
         log := events props_above_3 world_four_left |})).
Proof.
  vm_compute. repeat split; reflexivity.
Qed.

(** C6 as amended. When the referral code is not a string, or the
    quantity or the bonus plan is not a number other than NaN, the attempt
    ends with the schema message right after [preventDefault]: no
    collaborator is called. *)
Theorem schema_rejection (p : RawProps) (w : World) (st : HookState) :
  (forall s, raw_referralCode p <> JsString s) \/
  (forall x, raw_amount p = JsNumber x -> isNaN x = true) \/
  (forall x, raw_bonusPlan p = JsNumber x -> isNaN x = true) ->
  transfer p w st =
    (Normal tt,
     {| loading := false; error := msg_schema;
        beforeunload := beforeunload st;
        log := log st ++ [PreventDefault] |}).
Proof.
  intros H. apply transfer_schema_error.
  unfold transferSchema_safeParse, Zod.string, Zod.number.
  destruct H as [H | [H | H]].
  - destruct (raw_referralCode p) as [| | | |s|]; try reflexivity.
    now elim (H s).
  - destruct (raw_referralCode p); try reflexivity.
    destruct (raw_amount p) as [| | |x| |]; try reflexivity.
    now rewrite (H x eq_refl).
  - destruct (raw_referralCode p); try reflexivity.
    destruct (raw_amount p) as [| | |y| |]; try reflexivity.
    destruct (isNaN y); try reflexivity.
    destruct (raw_bonusPlan p) as [| | |x| |]; try reflexivity.
    now rewrite (H x eq_refl).
Qed.

(** A quantity that arrives as the string ["10"]. *)
Lemma schema_rejection_witness :
  transfer props_text_amount world_5_2000 initial =
    (Normal tt,
     {| loading := false; error := msg_schema;
        beforeunload := false; log := [PreventDefault] |}).
Proof.
  apply (schema_rejection props_text_amount world_5_2000 initial).
  right. left. intros x Hx. discriminate Hx.
Defined.

(** C6 as stated fails: the empty referral code passes the schema, the
    partner lookup is called and the attempt does not end with the schema
    message. *)
Lemma empty_referral_code_accepted :
  raw_referralCode props_empty_code = JsString EmptyString /\
  In (GetPartnerData "partner-1") (events props_empty_code world_5_2000) /\
  error (snd (transfer props_empty_code world_5_2000 initial)) <> msg_schema.
Proof.
  vm_compute. repeat split; [tauto | discriminate].
Qed.





(* ===================================================================== *)
(** ** Signs through the conversion *)
(* ===================================================================== *)

Lemma binary_round_aux_not_negative (mx ex : Z) (lx : location) :
  not_negative (binary_round_aux prec emax false mx ex lx).
Proof.
  unfold binary_round_aux.
  destruct (shr_fexp prec emax mx ex lx) as [mrs e'].
  destruct (shr_fexp prec emax _ e' loc_Exact) as [mrs2 e2].
  destruct (shr_m mrs2); cbn; auto.
  destruct (e2 <=? 971); cbn; auto.
Qed.

Lemma of_Z_not_negative (z : Z) : 0 <= z -> not_negative (of_Z z).
Proof.
  intros Hz. unfold of_Z, binary_normalize.
  destruct z as [|q|q]; cbn; auto; [|lia].
  unfold binary_round.
  destruct (shl_align q 0 _) as [mz ez].
  apply binary_round_aux_not_negative.
Qed.

Lemma geb_zero_not_negative (x : Number) :
  geb x (of_Z 0) = true -> not_negative x.
Proof.
  destruct x as [s|s| |[] m e]; cbn; auto. vm_compute. discriminate.
Qed.

Lemma mul_not_negative (x y : Number) :
  not_negative x -> not_negative y -> not_negative (mul x y).
Proof.
  destruct x as [sx|sx| |[] mx ex], y as [sy|sy| |[] my ey];
    cbn; auto; try tauto.
  intros _ _. apply binary_round_aux_not_negative.
Qed.

Lemma div_not_negative (x y : Number) :
  not_negative x -> not_negative y -> not_negative (div x y).
Proof.
  destruct x as [sx|sx| |[] mx ex], y as [sy|sy| |[] my ey];
    cbn; auto; try tauto.
  intros _ _. unfold div, SFdiv.
  destruct (SFdiv_core_binary prec emax (Z.pos mx) ex (Z.pos my) ey)
    as [[mz ez] lz].
  apply binary_round_aux_not_negative.
Qed.

Lemma Math_floor_not_negative (x : Number) :
  not_negative x -> not_negative (Math_floor x).
Proof.
  destruct x as [s|s| |[] m e]; cbn; auto; try contradiction.
  intros _. unfold Math_floor. destruct (0 <=? e) eqn:He; cbn; auto.
  apply Z.leb_gt in He.
  apply of_Z_not_negative. apply Z.div_pos; [lia|].
  apply Z.pow_pos_nonneg; lia.
Qed.

Lemma BigInt_not_negative (x : Number) (z : Z) :
  not_negative x -> BigInt x = Some z -> 0 <= z.
Proof.
  unfold BigInt, not_negative.
  destruct x as [s|s| |[] m e]; try contradiction; try discriminate.
  - intros _ H. assert (z = 0) by congruence. lia.
  - intros _. destruct (0 <=? e) eqn:He.
    + intros H. assert (Hz : z = Z.pos m * 2 ^ e) by congruence.
      apply Z.leb_le in He. rewrite Hz.
      apply Z.mul_nonneg_nonneg; [lia|]. apply Z.pow_nonneg. lia.
    + destruct (_ =? 0); [|discriminate].
      intros H. assert (Hz : z = Z.pos m / 2 ^ (- e)) by congruence.
      apply Z.leb_gt in He. rewrite Hz.
      apply Z.div_pos; [lia|]. apply Z.pow_pos_nonneg; lia.
Qed.

(** With a price, a quantity and a rate that are [>= 0], the amount in
    wei, when there is one, is not negative. *)
Lemma weiValue_nonneg (price amt rate : Number) (z : Z) :
  geb price (of_Z 0) = true -> geb amt (of_Z 0) = true ->
  geb rate (of_Z 0) = true ->
  weiValue price amt rate = Some z -> 0 <= z.
Proof.
  intros Hp Ha Hr. unfold weiValue. apply BigInt_not_negative.
  apply Math_floor_not_negative, mul_not_negative.
  - apply div_not_negative; [apply mul_not_negative|];
      now apply geb_zero_not_negative.
  - apply of_Z_not_negative. lia.
Qed.

(* ===================================================================== *)
(** ** After the validations *)
(* ===================================================================== *)

Section Validated.

Variables (p : RawProps) (w : World) (req : TransferType).
Variables (pid : string) (v : Validator) (s : Stored).

Hypothesis Hparse : transferSchema_safeParse p = Some req.
Hypothesis Hid : getPartnerId w = Some pid.
Hypothesis Hne : pid <> EmptyString.
Hypothesis Hv : getPartnerData w pid = Returns (Some v).
Hypothesis Hcap :
  gtb (add (amount req) (bonusValue (amount req)))
      (availableSmartNodes v) = false.
Hypothesis Hs : store_get w (STORAGE_KEY w) = Some s.

(** Schema, capacity and stored identity are fine: the attempt enters the
    [try] statement after the partner lookup, the read of the store and,
    with the test flag, the registration of the timer. *)
Lemma transfer_validated (st : HookState) :
  transfer p w st =
    try_catch_finally
      (transfer_try w req (stored_email s))
      (transfer_catch w)
      (setLoading false)
      {| loading := true; error := EmptyString;
         beforeunload := beforeunload st;
         log := log st
                ++ [PreventDefault; GetPartnerData pid;
                    StoreGet (STORAGE_KEY w)]
                ++ (if truthy (searchParams_get w testFlag)
                    then [SetTimeout (TestSuccessCallback (stored_email s))
                                     3000]
                    else []) |}.
Proof.
  unfold transfer, validateAmount, await, bind, emit, setLoading, setError,
    ret, throw.
  cbn. rewrite Hparse, Hid, (eqb_empty_false _ Hne), Hv. cbn.
  rewrite Hcap. cbn. rewrite Hs. cbn.
  destruct (truthy (searchParams_get w testFlag)); cbn;
    repeat rewrite <- app_assoc; cbn; reflexivity.
Qed.

(** C10 as amended. Once schema, capacity and stored identity are fine, a
    query parameter [testSuccessModalOption] with a non-empty value makes
    [transfer] register exactly one timer, of 3000 ms, whatever the
    network check, the conversion and the wallet do afterwards; its
    callback navigates with the bundle of the fixed hash
    [0x123456789abcdef] and the stored email, and clears [loading]. *)
Theorem test_flag_schedules_navigation (flag : string) :
  searchParams_get w testFlag = Some flag -> flag <> EmptyString ->
  timers (events p w) = [(TestSuccessCallback (stored_email s), 3000)] /\
  forall st,
    run_callback w (TestSuccessCallback (stored_email s)) st =
      (Normal tt,
       {| loading := false; error := error st;
          beforeunload := beforeunload st;
          log := log st ++
                 [Navigate (encryptData w "0x123456789abcdef"
                                        (stored_email s))] |}).
Proof.
  intros Hq Hflag. split; [|reflexivity].
  unfold events. rewrite transfer_validated, Hq, (truthy_Some _ Hflag).
  unfold_flow. cbn.
  all_paths; reflexivity.
Qed.

(** Without a truthy test flag no timer is registered. *)
Lemma no_test_flag_no_timer :
  truthy (searchParams_get w testFlag) = false -> timers (events p w) = [].
Proof.
  intros Hq. unfold events. rewrite transfer_validated, Hq.
  unfold_flow. cbn. all_paths; reflexivity.
Qed.

Section Converted.

Variables (u : User) (d : PartnerData) (rate : Number).

Hypothesis Hnet : validateNetwork w "arbitrum" = Returns true.
Hypothesis Hu : user w = Some u.
Hypothesis Hd : data w = Some d.
Hypothesis Hrate : getConversionRate w = Returns rate.

(** The conversion step is reached: the wallet receives one operation,
    for [weiValue], unless [BigInt] throws, and then it receives none. *)
Lemma submissions_converted :
  submissions (events p w) =
    match weiValue (currentPrice d) (amount req) rate with
    | Some z => [ {| UserOperation.target := paymentsWallet d;
                     UserOperation.data := "0x";
                     UserOperation.value := z |} ]
    | None => []
    end.
Proof.
  unfold events. rewrite transfer_validated.
  unfold weiValue. unfold_flow. cbn.
  rewrite Hnet, Hu, Hd, Hid, (truthy_Some _ Hne), Hrate. cbn.
  all_paths; reflexivity.
Qed.

End Converted.

End Validated.

(** [?testSuccessModalOption=1] on the purchase of ten nodes. *)
Lemma test_flag_schedules_navigation_witness :
  timers (events props_10 (world_test_flag "1")) =
    [(TestSuccessCallback "user@example.org", 3000)] /\
  forall st,
    run_callback (world_test_flag "1")
                 (TestSuccessCallback "user@example.org") st =
      (Normal tt,
       {| loading := false; error := error st;
          beforeunload := beforeunload st;
          log := log st ++
                 [Navigate "0x123456789abcdef|user@example.org"] |}).
Proof.
  apply (test_flag_schedules_navigation props_10 (world_test_flag "1")
           (parsed 10) "partner-1" {| availableSmartNodes := of_Z 100 |}
           {| stored_email := "user@example.org" |}
           eq_refl eq_refl ltac:(discriminate) eq_refl
           ltac:(vm_compute; reflexivity) eq_refl "1"
           eq_refl ltac:(discriminate)).
Defined.

(** C10 as stated fails: with [?testSuccessModalOption=] the parameter is
    in the query string, [params.get] returns the empty string, which is
    falsy, and no timer is registered. *)
Lemma empty_test_flag_schedules_nothing :
  searchParams_get (world_test_flag EmptyString) testFlag
    = Some EmptyString /\
  timers (events props_10 (world_test_flag EmptyString)) = [].
Proof.
  vm_compute. split; reflexivity.
Qed.

(** C1 as stated fails. One node at 100 with rate 3000: the code submits
    33333333333333332 wei while the exact floor of [100 / 3000 * 10^18] is
    33333333333333333. *)
Lemma rounded_amount_differs_from_exact_floor :
  submissions (events props_1 world_100_3000) =
    [ {| UserOperation.target := "0xPAYMENTS";
         UserOperation.data := "0x";
         UserOperation.value := 33333333333333332 |} ] /\
  spec_amount (inject_Z 100) (inject_Z 1) (inject_Z 3000)
    = 33333333333333333.
Proof.
  vm_compute. split; reflexivity.
Qed.

(** The schema lets a negative quantity through, and the amount handed to
    the wallet is then negative: the sign condition above is needed. *)
Lemma negative_quantity_negative_amount :
  submissions (events props_minus_1 world_5_2000) =
    [ {| UserOperation.target := "0xPAYMENTS";
         UserOperation.data := "0x";
         UserOperation.value := -2500000000000000 |} ].
Proof.
  vm_compute. reflexivity.
Qed.

(* ===================================================================== *)
(** ** After the wallet submission *)
(* ===================================================================== *)

(** The operation of the running example. *)
Lemma submissions_example :
  submissions (events props_10 world_5_2000) =
    [ {| UserOperation.target := "0xPAYMENTS";
         UserOperation.data := "0x";
         UserOperation.value := 25000000000000000 |} ].
Proof. vm_compute. reflexivity. Qed.

(** C4 as amended. When the wallet returns a transaction hash, at most
    one purchase is handed to [purchaseTracker], every purchase handed
    over carries that hash, and exactly one is handed over when
    [getUserReferralCode] returns. *)
Theorem ledger_record_after_submission (p : RawProps) (w : World)
  (uo : UserOperation.t) (hash : string) :
  In uo (submissions (events p w)) ->
  sendUserOperationAsync w uo = Returns hash ->
  (List.length (ledger_records (events p w)) <= 1)%nat /\
  (forall r, In r (ledger_records (events p w)) ->
             Purchase.transactionHash r = hash) /\
  (forall u s code,
     user w = Some u -> store_get w (STORAGE_KEY w) = Some s ->
     getUserReferralCode w (address u) (stored_email s) = Returns code ->
     exists r, ledger_records (events p w) = [r]).
Proof.
  intros Hin Hsend. unfold_flow.
  all_paths; tidy.
  all: (split; [lia | split]).
  all: try (intros r Hr; tidy; fail).
  all: intros u' s' code' Hu' Hs' Hc'; tidy; eexists; reflexivity.
Qed.

(** The purchase of ten nodes, every collaborator answering. *)
Lemma ledger_record_after_submission_witness :
  (List.length (ledger_records (events props_10 world_5_2000)) <= 1)%nat /\
  (forall r, In r (ledger_records (events props_10 world_5_2000)) ->
             Purchase.transactionHash r = "0xHASH") /\
  (forall u s code,
     user world_5_2000 = Some u ->
     store_get world_5_2000 (STORAGE_KEY world_5_2000) = Some s ->
     getUserReferralCode world_5_2000 (address u) (stored_email s)
       = Returns code ->
     exists r, ledger_records (events props_10 world_5_2000) = [r]).
Proof.
  apply (ledger_record_after_submission props_10 world_5_2000
           {| UserOperation.target := "0xPAYMENTS";
              UserOperation.data := "0x";
              UserOperation.value := 25000000000000000 |} "0xHASH").
  - rewrite submissions_example. left. reflexivity.
  - reflexivity.
Defined.

(** C4 as stated fails: the wallet returns a hash, the referral request
    is rejected, and no purchase is handed to [purchaseTracker]. *)
Lemma failed_referral_skips_ledger :
  submissions (events props_10 world_referral_down) =
    [ {| UserOperation.target := "0xPAYMENTS";
         UserOperation.data := "0x";
         UserOperation.value := 25000000000000000 |} ] /\
  sendUserOperationAsync world_referral_down
    {| UserOperation.target := "0xPAYMENTS";
       UserOperation.data := "0x";
       UserOperation.value := 25000000000000000 |} = Returns "0xHASH" /\
  ledger_records (events props_10 world_referral_down) = [].
Proof.
  vm_compute. repeat split; reflexivity.
Qed.

(** C5 as amended. When [purchaseTracker] was called for a purchase and
    answered with a falsy status, the wallet had returned the hash of that
    purchase, the user is still navigated to the result screen with the
    bundle of that hash and the stored email, [transfer] completes
    normally with [loading] cleared, and the failure only shows as the
    purchase message. *)
Theorem recording_failure_still_navigates (p : RawProps) (w : World)
  (r : Purchase.t) :
  In r (ledger_records (events p w)) ->
  purchaseTracker w r = Returns false ->
  (exists uo, submissions (events p w) = [uo] /\
              sendUserOperationAsync w uo
                = Returns (Purchase.transactionHash r)) /\
  (exists s, store_get w (STORAGE_KEY w) = Some s /\
             Purchase.email r = stored_email s) /\
  navigations (events p w) =
    [encryptData w (Purchase.transactionHash r) (Purchase.email r)] /\
  fst (transfer p w initial) = Normal tt /\
  error (snd (transfer p w initial)) = msg_purchase /\
  loading (snd (transfer p w initial)) = false /\
  beforeunload (snd (transfer p w initial)) = false.
Proof.
  intros Hin Htr. unfold_flow.
  all_paths; tidy.
  all: repeat split; eauto.
Qed.

Lemma recording_failure_still_navigates_witness :
  navigations (events props_10 world_ledger_refuses) =
    ["0xHASH|user@example.org"] /\
  fst (transfer props_10 world_ledger_refuses initial) = Normal tt /\
  error (snd (transfer props_10 world_ledger_refuses initial))
    = msg_purchase /\
  loading (snd (transfer props_10 world_ledger_refuses initial)) = false /\
  beforeunload (snd (transfer props_10 world_ledger_refuses initial))
    = false.
Proof.
  destruct (recording_failure_still_navigates props_10 world_ledger_refuses
              purchase_example)
    as (_ & _ & Hnav & Hrest).
  - vm_compute. left. reflexivity.
  - reflexivity.
  - split; [exact Hnav | exact Hrest].
Defined.

(** C5 as stated fails: the wallet returns a hash, the ledger call is made
    and is rejected; the [catch] clause takes over, the user is not
    navigated anywhere, and the [beforeunload] listener stays. *)
Lemma rejected_ledger_call_is_fatal :
  submissions (events props_10 world_ledger_down) =
    [ {| UserOperation.target := "0xPAYMENTS";
         UserOperation.data := "0x";
         UserOperation.value := 25000000000000000 |} ] /\
  sendUserOperationAsync world_ledger_down
    {| UserOperation.target := "0xPAYMENTS";
       UserOperation.data := "0x";
       UserOperation.value := 25000000000000000 |} = Returns "0xHASH" /\
  ledger_records (events props_10 world_ledger_down) = [purchase_example] /\
  purchaseTracker world_ledger_down purchase_example
    = Rejects (Rejection "ledger down") /\
  navigations (events props_10 world_ledger_down) = [] /\
  error (snd (transfer props_10 world_ledger_down initial)) = msg_purchase.
Proof.
  vm_compute. repeat split; reflexivity.
Qed.

(* ===================================================================== *)
(** ** The beforeunload guard *)
(* ===================================================================== *)

(** The listener is registered right before the wallet is called. *)
Lemma guard_set_when_submitting (p : RawProps) (w : World)
  (uo : UserOperation.t) :
  In uo (submissions (events p w)) ->
  exists l1 l2,
    events p w = l1 ++ AddBeforeUnloadListener :: SendUserOperation uo :: l2.
Proof.
  intros Hin. unfold_flow.
  all_paths; tidy.
  all: match goal with
       | |- exists l1 l2, ?l = _ =>
           match l with
           | context [AddBeforeUnloadListener :: SendUserOperation _ :: ?t] =>
               match l with
               | ?a :: ?b :: ?c :: ?d :: ?e :: AddBeforeUnloadListener :: _ =>
                   exists [a; b; c; d; e], t; reflexivity
               | ?a :: ?b :: ?c :: ?d :: ?e :: ?f
                   :: AddBeforeUnloadListener :: _ =>
                   exists [a; b; c; d; e; f], t; reflexivity
               end
           end
       end.
Qed.

(** It is removed once [purchaseTracker] has answered. *)
Lemma guard_released_after_recording (p : RawProps) (w : World)
  (r : Purchase.t) (b : bool) :
  In r (ledger_records (events p w)) ->
  purchaseTracker w r = Returns b ->
  beforeunload (snd (transfer p w initial)) = false.
Proof.
  intros Hin Htr. unfold_flow.
  all_paths; tidy; auto.
Qed.

(** When the wallet call is rejected, neither the [catch] clause nor the
    [finally] clause removes the listener: the attempt is over and the
    guard is still on. *)
Lemma guard_left_after_rejected_submission (p : RawProps) (w : World)
  (uo : UserOperation.t) (e : JsError) :
  In uo (submissions (events p w)) ->
  sendUserOperationAsync w uo = Rejects e ->
  beforeunload (snd (transfer p w initial)) = true /\
  loading (snd (transfer p w initial)) = false.
Proof.
  intros Hin Hsend. unfold_flow.
  all_paths; tidy; auto.
Qed.

(** C7, the failing run. The user rejects the signature: [transfer] ends
    with the rejection message and [loading] cleared, the listener was
    registered and never removed, so the page keeps warning against
    leaving although nothing is in progress. *)
Theorem guard_stays_after_rejected_signature :
  fst (transfer props_10 world_user_rejects initial) = Normal tt /\
  loading (snd (transfer props_10 world_user_rejects initial)) = false /\
  error (snd (transfer props_10 world_user_rejects initial))
    = msg_rejected /\
  In AddBeforeUnloadListener (events props_10 world_user_rejects) /\
  ~ In RemoveBeforeUnloadListener (events props_10 world_user_rejects) /\
  beforeunload (snd (transfer props_10 world_user_rejects initial)) = true.
Proof.
  vm_compute. repeat split; try reflexivity.
  - tauto.
  - intros H. repeat (destruct H as [H|H]; [discriminate H|]). exact H.
Qed.

(* ===================================================================== *)
(** ** Re-entrancy *)
(* ===================================================================== *)

(** C9 as amended. [transfer] never reads [loading] nor [error]: invoked
    while [loading] is true it runs the very attempt it runs when
    [loading] is false. Keeping attempts apart is left to the caller. *)
Theorem transfer_ignores_loading (p : RawProps) (w : World)
  (b1 b2 : bool) (e1 e2 : string) (g : bool) (l : list Event) :
  transfer p w {| loading := b1; error := e1; beforeunload := g; log := l |} =
  transfer p w {| loading := b2; error := e2; beforeunload := g; log := l |}.
Proof.
  unfold_flow. all_paths; reflexivity.
Qed.

(** The state [awaiting_wallet] is the one the first attempt of the
    running example is in while the wallet call is outstanding. *)
Lemma awaiting_wallet_is_reached :
  log awaiting_wallet = firstn 7 (events props_10 world_5_2000).
Proof. vm_compute. reflexivity. Qed.

(** C9 as stated fails: invoked while [loading] is true and the first
    wallet call is still outstanding, [transfer] runs a second attempt and
    hands a second operation to the wallet. *)
Lemma busy_hook_still_submits :
  loading awaiting_wallet = true /\
  submissions (log (snd (transfer props_10 world_5_2000 awaiting_wallet))) =
    [operation_example; operation_example].
Proof.
  vm_compute. split; reflexivity.
Qed.

(* ===================================================================== *)
(** ** Reading the string of a Number back *)
(* ===================================================================== *)

Local Open Scope string_scope.
Local Open Scope Z_scope.

(** *** Decimal digits *)

Lemma digit_value_digit_char (d : Z) :
  0 <= d < 10 -> digit_value 10 (digit_char d) = Some d.
Proof.
  intros H.
  assert (C : d = 0 \/ d = 1 \/ d = 2 \/ d = 3 \/ d = 4 \/ d = 5 \/ d = 6 \/
              d = 7 \/ d = 8 \/ d = 9) by lia.
  repeat (destruct C as [-> | C]; [reflexivity|]). subst. reflexivity.
Qed.

Lemma append_assoc (a b c : string) : (a ++ b) ++ c = a ++ (b ++ c).
Proof. induction a; cbn; congruence. Qed.

Lemma append_nil_r (a : string) : a ++ EmptyString = a.
Proof. induction a; cbn; congruence. Qed.

Lemma length_append (a b : string) :
  String.length (a ++ b) = (String.length a + String.length b)%nat.
Proof. induction a; cbn; congruence. Qed.

(** Reading the digits of [c] back gives [c]. *)
Lemma read_digits_fuel (fuel : nat) :
  forall c t, 0 < c < 10 ^ Z.of_nat fuel ->
    read_digits 10 (digits_fuel fuel c ++ t) None = read_digits 10 t (Some c).
Proof.
  induction fuel as [|f IH]; intros c t Hc.
  - cbn in Hc. lia.
  - cbn [digits_fuel]. rewrite append_assoc. cbn [append].
    assert (Hd : 0 <= c mod 10 < 10) by (apply Z.mod_pos_bound; lia).
    destruct (c <? 10) eqn:Hlt.
    + apply Z.ltb_lt in Hlt. cbn [append read_digits].
      rewrite digit_value_digit_char by exact Hd.
      rewrite Z.mod_small by lia. reflexivity.
    + apply Z.ltb_ge in Hlt. rewrite IH.
      * cbn [read_digits]. rewrite digit_value_digit_char by exact Hd.
        f_equal. f_equal. rewrite (Z.div_mod c 10) at 3 by lia. lia.
      * split; [apply Z.div_str_pos; lia|].
        apply Z.div_lt_upper_bound; [lia|].
        rewrite Nat2Z.inj_succ, Z.pow_succ_r in Hc by lia. lia.
Qed.

Lemma log2_fuel (c : Z) : 0 <= c -> c < 10 ^ Z.of_nat (S (Z.to_nat (Z.log2 c))).
Proof.
  intros Hc. rewrite Nat2Z.inj_succ, Z2Nat.id by apply Z.log2_nonneg.
  destruct (Z.eq_dec c 0) as [->|Hn]; [cbn; lia|].
  assert (H := Z.log2_spec c ltac:(lia)).
  assert (H2 : 2 ^ Z.succ (Z.log2 c) <= 10 ^ Z.succ (Z.log2 c)).
  { apply Z.pow_le_mono_l. lia. }
  lia.
Qed.

(** The digits do not depend on the fuel once there is enough of it. *)
Lemma digits_fuel_indep (f1 : nat) :
  forall f2 c, 0 < c < 10 ^ Z.of_nat f1 -> c < 10 ^ Z.of_nat f2 ->
    digits_fuel f1 c = digits_fuel f2 c.
Proof.
  induction f1 as [|f1 IH]; intros f2 c H1 H2.
  - cbn in H1. lia.
  - destruct f2 as [|f2]; [cbn in H2; lia|].
    cbn [digits_fuel]. destruct (c <? 10) eqn:Hlt; [reflexivity|].
    apply Z.ltb_ge in Hlt. f_equal. apply IH.
    + split; [apply Z.div_str_pos; lia|]. apply Z.div_lt_upper_bound; [lia|].
      rewrite Nat2Z.inj_succ, Z.pow_succ_r in H1 by lia. lia.
    + apply Z.div_lt_upper_bound; [lia|].
      rewrite Nat2Z.inj_succ, Z.pow_succ_r in H2 by lia. lia.
Qed.

Lemma digits_of_fuel (f : nat) (c : Z) :
  0 < c < 10 ^ Z.of_nat f -> digits_of c = digits_fuel f c.
Proof.
  intros H. unfold digits_of. apply digits_fuel_indep; [|lia].
  split; [lia|]. apply log2_fuel. lia.
Qed.

Lemma read_digits_of (c : Z) (t : string) :
  0 < c -> read_digits 10 (digits_of c ++ t) None = read_digits 10 t (Some c).
Proof.
  intros Hc. unfold digits_of. apply read_digits_fuel.
  split; [lia|]. apply log2_fuel. lia.
Qed.

(** One more digit. *)
Lemma digits_of_step (c : Z) :
  10 <= c ->
  digits_of c = digits_of (c / 10) ++ String (digit_char (c mod 10)) EmptyString.
Proof.
  intros Hc.
  assert (H := log2_fuel c ltac:(lia)).
  unfold digits_of at 1. cbn [digits_fuel].
  destruct (c <? 10) eqn:Hlt; [apply Z.ltb_lt in Hlt; lia|].
  f_equal. symmetry. apply digits_of_fuel.
  split; [apply Z.div_str_pos; lia|]. apply Z.div_lt_upper_bound; [lia|].
  rewrite Nat2Z.inj_succ, Z.pow_succ_r in H by lia. lia.
Qed.

Lemma digits_of_small (c : Z) :
  0 < c < 10 -> digits_of c = String (digit_char c) EmptyString.
Proof.
  intros Hc. rewrite (digits_of_fuel 1) by (cbn; lia). cbn.
  destruct (c <? 10) eqn:Hlt; [|apply Z.ltb_ge in Hlt; lia].
  cbn. now rewrite Z.mod_small by lia.
Qed.

(** Dropping the last [t] digits divides by [10^t]. *)
Lemma digits_of_prefix (t : nat) :
  forall c, 10 ^ Z.of_nat t <= c ->
    exists b, digits_of c = digits_of (c / 10 ^ Z.of_nat t) ++ b /\
              String.length b = t.
Proof.
  induction t as [|t IH]; intros c Hc.
  - exists EmptyString. cbn. rewrite Z.div_1_r, append_nil_r.
    split; reflexivity.
  - rewrite Nat2Z.inj_succ, Z.pow_succ_r in * by lia.
    assert (Hp : 0 < 10 ^ Z.of_nat t) by (apply Z.pow_pos_nonneg; lia).
    rewrite digits_of_step by lia.
    destruct (IH (c / 10)) as (b & Hb & Hl).
    { apply Z.div_le_lower_bound; lia. }
    exists (b ++ String (digit_char (c mod 10)) EmptyString).
    rewrite Hb, append_assoc. split.
    + f_equal. f_equal. rewrite Z.div_div by lia. reflexivity.
    + rewrite length_append. cbn. lia.
Qed.

Lemma digits_of_nonempty (c : Z) : (1 <= String.length (digits_of c))%nat.
Proof.
  unfold digits_of. cbn [digits_fuel]. rewrite length_append. cbn. lia.
Qed.

(** A number below [10^f] has at most [f] digits. *)
Lemma digits_fuel_length (f : nat) :
  forall c, 0 < c < 10 ^ Z.of_nat f ->
    (String.length (digits_fuel f c) <= f)%nat.
Proof.
  induction f as [|f IH]; intros c Hc.
  - cbn in Hc. lia.
  - cbn [digits_fuel]. rewrite length_append. cbn.
    destruct (c <? 10) eqn:Hlt; [cbn; lia|].
    apply Z.ltb_ge in Hlt.
    assert (String.length (digits_fuel f (c / 10)) <= f)%nat; [|lia].
    apply IH. split; [apply Z.div_str_pos; lia|].
    apply Z.div_lt_upper_bound; [lia|].
    rewrite Nat2Z.inj_succ, Z.pow_succ_r in Hc by lia. lia.
Qed.

Lemma digits_of_length (f : nat) (c : Z) :
  0 < c < 10 ^ Z.of_nat f -> (String.length (digits_of c) <= f)%nat.
Proof.
  intros H. rewrite (digits_of_fuel f) by exact H. now apply digits_fuel_length.
Qed.

Lemma substring_prefix (a b : string) :
  substring 0 (String.length a) (a ++ b) = a.
Proof.
  induction a as [|ch a IH]; cbn.
  - destruct b; reflexivity.
  - now rewrite IH.
Qed.

Lemma read_digits_zeros (n : nat) (c : Z) :
  read_digits 10 (zeros n) (Some c) = Some (c * 10 ^ Z.of_nat n).
Proof.
  revert c. induction n as [|n IH]; intros c.
  - cbn. f_equal. lia.
  - cbn [zeros read_digits]. change (digit_value 10 "0") with (Some 0).
    cbn iota. rewrite IH. f_equal.
    rewrite Nat2Z.inj_succ, Z.pow_succ_r by lia. lia.
Qed.


Lemma digits_fuel_head (f : nat) :
  forall c, 0 < c < 10 ^ Z.of_nat f ->
    exists d r, 1 <= d <= 9 /\ digits_fuel f c = String (digit_char d) r.
Proof.
  induction f as [|f IH]; intros c Hc.
  - cbn in Hc. lia.
  - cbn [digits_fuel]. destruct (c <? 10) eqn:Hlt.
    + apply Z.ltb_lt in Hlt. exists c, EmptyString. cbn.
      rewrite Z.mod_small by lia. split; [lia|reflexivity].
    + apply Z.ltb_ge in Hlt.
      destruct (IH (c / 10)) as (d & r & Hd & Hr).
      * split; [apply Z.div_str_pos; lia|].
        apply Z.div_lt_upper_bound; [lia|].
        rewrite Nat2Z.inj_succ, Z.pow_succ_r in Hc by lia. lia.
      * rewrite Hr. cbn. eauto.
Qed.

Lemma digits_of_head (c : Z) :
  0 < c -> exists d r, 1 <= d <= 9 /\ digits_of c = String (digit_char d) r.
Proof.
  intros Hc. unfold digits_of. apply digits_fuel_head.
  split; [lia|]. apply log2_fuel. lia.
Qed.

(** A string that starts with a digit from 1 to 9 has no white space,
    sign or radix prefix to strip. *)
Lemma parseInt_head (d : Z) (r : string) :
  1 <= d <= 9 ->
  parseInt (String (digit_char d) r) =
    match read_digits 10 (String (digit_char d) r) None with
    | None => NaN
    | Some 0 => S754_zero false
    | Some z => of_Z z
    end.
Proof.
  intros H.
  assert (C : d = 1 \/ d = 2 \/ d = 3 \/ d = 4 \/ d = 5 \/ d = 6 \/
              d = 7 \/ d = 8 \/ d = 9) by lia.
  repeat (destruct C as [-> | C]; [reflexivity|]). subst. reflexivity.
Qed.

(** [parseInt] of the digits of [q] followed by something that does not
    start with a digit. *)
Lemma parseInt_digits_of (q : Z) (t : string) (z : Z) :
  0 < q -> read_digits 10 t (Some q) = Some z -> 0 < z ->
  parseInt (digits_of q ++ t) = of_Z z.
Proof.
  intros Hq Ht Hz.
  destruct (digits_of_head q Hq) as (d & r & Hd & Hr).
  assert (Hread := read_digits_of q t Hq). rewrite Ht in Hread.
  rewrite Hr in *. cbn [append] in *.
  rewrite parseInt_head by exact Hd. rewrite Hread.
  destruct z; try lia. reflexivity.
Qed.

(** *** The search *)

Lemma shortest_from_sound (fuel : nat) (m : positive) (e : Z) :
  forall j0 c j,
    shortest_from fuel m e j0 = Some (c, j) ->
    candidate m e j = Some c /\ j <= j0 /\
    forall j', j < j' <= j0 -> candidate m e j' = None.
Proof.
  induction fuel as [|f IH]; intros j0 c j H; [discriminate|].
  cbn [shortest_from] in H.
  destruct (candidate m e j0) as [c0|] eqn:Hc.
  - injection H as <- <-. repeat split; [exact Hc|lia|intros; lia].
  - destruct (IH _ _ _ H) as (H1 & H2 & H3).
    repeat split; [exact H1|lia|].
    intros j' Hj. destruct (Z.eq_dec j' j0) as [->|]; [exact Hc|].
    apply H3. lia.
Qed.

Lemma shortest_from_finds (fuel : nat) (m : positive) (e : Z) :
  forall j0 j',
    candidate m e j' <> None -> j0 - Z.of_nat fuel < j' <= j0 ->
    shortest_from fuel m e j0 <> None.
Proof.
  induction fuel as [|f IH]; intros j0 j' Hc Hj; [lia|].
  cbn [shortest_from].
  destruct (candidate m e j0) as [c0|] eqn:Hc0; [discriminate|].
  apply (IH (j0 - 1) j' Hc).
  destruct (Z.eq_dec j' j0) as [->|]; [congruence|]. lia.
Qed.

Lemma candidate_sound (m : positive) (e j c : Z) :
  candidate m e j = Some c ->
  0 < c /\
  in_interval (round_interval m e) (inject_Z c * Qpower 10 j) = true.
Proof.
  unfold candidate.
  set (x := (inject_Z (Z.pos m) * Qpower 2 e)%Q).
  set (i := round_interval m e).
  set (p := Qpower 10 j).
  set (c1 := Qfloor (x / p)).
  destruct ((0 <? c1) && in_interval i (inject_Z c1 * p)) eqn:H1;
  destruct ((0 <? c1 + 1) && in_interval i (inject_Z (c1 + 1) * p)) eqn:H2;
    try discriminate.
  - apply andb_prop in H1, H2. destruct H1 as [A1 B1], H2 as [A2 B2].
    apply Z.ltb_lt in A1, A2.
    destruct (Qeq_bool _ _); [destruct (Z.even c1)|destruct (Qle_bool _ _)];
      intros [= <-]; auto.
  - apply andb_prop in H1. destruct H1 as [A1 B1]. apply Z.ltb_lt in A1.
    intros [= <-]; auto.
  - apply andb_prop in H2. destruct H2 as [A2 B2]. apply Z.ltb_lt in A2.
    intros [= <-]; auto.
Qed.

(** *** Powers as rationals *)

Lemma two_neq_0 : ~ (2 == 0)%Q.
Proof. discriminate. Qed.

Lemma ten_neq_0 : ~ (10 == 0)%Q.
Proof. discriminate. Qed.

Lemma Qpower_2_cancel (k : Z) :
  0 <= k -> (Qpower 2 (- k) * inject_Z (2 ^ k) == 1)%Q.
Proof.
  intros Hk. rewrite (Zpower_Qpower 2 k Hk).
  change (inject_Z 2) with 2%Q.
  rewrite <- Qpower_plus by exact two_neq_0.
  replace (- k + k) with 0 by lia. reflexivity.
Qed.

Lemma Qpower_10_cancel (t : Z) :
  0 <= t -> (Qpower 10 (- t) * inject_Z (10 ^ t) == 1)%Q.
Proof.
  intros Ht. rewrite (Zpower_Qpower 10 t Ht).
  change (inject_Z 10) with 10%Q.
  rewrite <- Qpower_plus by exact ten_neq_0.
  replace (- t + t) with 0 by lia. reflexivity.
Qed.

Lemma Qpower_10_nonneg (j : Z) :
  0 <= j -> (Qpower 10 j == inject_Z (10 ^ j))%Q.
Proof. intros Hj. now rewrite (Zpower_Qpower 10 j Hj). Qed.

Lemma inject_Z_pow_pos (a k : Z) : 0 < a -> 0 <= k -> (0 < inject_Z (a ^ k))%Q.
Proof.
  intros Ha Hk. change 0%Q with (inject_Z 0). rewrite <- Zlt_Qlt.
  apply Z.pow_pos_nonneg; lia.
Qed.

(** The value [m * 2^(-k)] and half a gap, scaled to integers. *)
Lemma value_scaled (m k : Z) :
  0 <= k ->
  (inject_Z m * Qpower 2 (- k) * inject_Z (2 ^ (k + 1)) == inject_Z (2 * m))%Q.
Proof.
  intros Hk. rewrite Z.pow_add_r, Z.pow_1_r by lia.
  rewrite !inject_Z_mult.
  transitivity (inject_Z m * (Qpower 2 (- k) * inject_Z (2 ^ k)) * inject_Z 2)%Q;
    [ring|].
  rewrite Qpower_2_cancel by exact Hk. ring.
Qed.

Lemma half_gap_scaled (k : Z) :
  0 <= k -> (Qpower 2 (- k - 1) * inject_Z (2 ^ (k + 1)) == 1)%Q.
Proof.
  intros Hk. replace (- k - 1) with (- (k + 1)) by lia.
  apply Qpower_2_cancel. lia.
Qed.

Lemma quarter_le_half (e : Z) : (Qpower 2 (e - 2) <= Qpower 2 (e - 1))%Q.
Proof.
  replace (e - 1) with ((e - 2) + 1) by lia.
  rewrite Qpower_plus by exact two_neq_0.
  assert (H : (0 < Qpower 2 (e - 2))%Q) by (apply Qpower_0_lt; reflexivity).
  change (Qpower 2 1) with 2%Q.
  rewrite <- (Qmult_1_r (Qpower 2 (e - 2))) at 1.
  apply Qmult_le_l; [exact H|]. discriminate.
Qed.

(** *** The rounding interval *)

(** A decimal of the interval is within half a gap of the value. *)
Lemma in_interval_bounds (m : positive) (e : Z) (d : Q) :
  in_interval (round_interval m e) d = true ->
  (inject_Z (Z.pos m) * Qpower 2 e - Qpower 2 (e - 1) <= d)%Q /\
  (d <= inject_Z (Z.pos m) * Qpower 2 e + Qpower 2 (e - 1))%Q.
Proof.
  unfold round_interval, in_interval.
  set (x := (inject_Z (Z.pos m) * Qpower 2 e)%Q).
  set (down := if (Z.pos m =? 2 ^ (prec - 1)) && (emin prec emax <? e)
               then Qpower 2 (e - 2) else Qpower 2 (e - 1)).
  assert (Hdown : (down <= Qpower 2 (e - 1))%Q).
  { subst down. destruct (_ && _); [apply quarter_le_half|apply Qle_refl]. }
  assert (Hlo : (x - Qpower 2 (e - 1) <= x - down)%Q).
  { unfold Qminus. apply Qplus_le_r. now apply Qopp_le_compat. }
  destruct (Z.even (Z.pos m)); intros H; apply andb_prop in H; destruct H as [A B].
  - apply Qle_bool_iff in A, B. split; [|exact B].
    eapply Qle_trans; eassumption.
  - apply negb_true_iff in A, B.
    assert (A' : ~ (d <= x - down)%Q) by (rewrite <- Qle_bool_iff; congruence).
    assert (B' : ~ (x + Qpower 2 (e - 1) <= d)%Q) by (rewrite <- Qle_bool_iff; congruence).
    apply Qnot_le_lt in A', B'. split.
    + eapply Qle_trans; [exact Hlo|]. now apply Qlt_le_weak.
    + now apply Qlt_le_weak.
Qed.

(** The value itself is in its interval. *)
Lemma value_in_interval (m : positive) (e : Z) (d : Q) :
  (d == inject_Z (Z.pos m) * Qpower 2 e)%Q ->
  in_interval (round_interval m e) d = true.
Proof.
  intros Hd. unfold round_interval, in_interval.
  set (x := (inject_Z (Z.pos m) * Qpower 2 e)%Q) in *.
  set (down := if (Z.pos m =? 2 ^ (prec - 1)) && (emin prec emax <? e)
               then Qpower 2 (e - 2) else Qpower 2 (e - 1)).
  assert (Hdown : (0 < down)%Q).
  { subst down. destruct (_ && _); apply Qpower_0_lt; reflexivity. }
  assert (Hup : (0 < Qpower 2 (e - 1))%Q) by (apply Qpower_0_lt; reflexivity).
  assert (Hlo : (x - down < d)%Q).
  { rewrite Hd. rewrite <- (Qplus_0_r x) at 2. unfold Qminus.
    apply Qplus_lt_r. apply (Qopp_lt_compat 0 down) in Hdown. exact Hdown. }
  assert (Hhi : (d < x + Qpower 2 (e - 1))%Q).
  { rewrite Hd. rewrite <- (Qplus_0_r x) at 1. now apply Qplus_lt_r. }
  destruct (Z.even (Z.pos m)); apply andb_true_intro; split.
  - apply Qle_bool_iff. now apply Qlt_le_weak.
  - apply Qle_bool_iff. now apply Qlt_le_weak.
  - apply negb_true_iff. apply not_true_is_false. rewrite Qle_bool_iff.
    now apply Qlt_not_le.
  - apply negb_true_iff. apply not_true_is_false. rewrite Qle_bool_iff.
    now apply Qlt_not_le.
Qed.

(** Scaled to integers: [d * 2^(k+1)] lies between [2m - 1] and [2m + 1]. *)
Lemma in_interval_scaled (m : positive) (k : Z) (d : Q) :
  0 <= k ->
  in_interval (round_interval m (- k)) d = true ->
  (inject_Z (2 * Z.pos m - 1) <= d * inject_Z (2 ^ (k + 1)))%Q /\
  (d * inject_Z (2 ^ (k + 1)) <= inject_Z (2 * Z.pos m + 1))%Q.
Proof.
  intros Hk H. apply in_interval_bounds in H. destruct H as [Hlo Hhi].
  assert (HW : (0 <= inject_Z (2 ^ (k + 1)))%Q).
  { apply Qlt_le_weak, inject_Z_pow_pos; lia. }
  apply (Qmult_le_compat_r _ _ _ Hlo) in HW as Hlo'.
  apply (Qmult_le_compat_r _ _ _ Hhi) in HW as Hhi'.
  split.
  - eapply Qle_trans; [|exact Hlo'].
    unfold Zminus. rewrite inject_Z_plus. 
    setoid_replace ((inject_Z (Z.pos m) * Qpower 2 (- k) - Qpower 2 (- k - 1)) * inject_Z (2 ^ (k + 1)))%Q
      with (inject_Z (Z.pos m) * Qpower 2 (- k) * inject_Z (2 ^ (k + 1))
            - Qpower 2 (- k - 1) * inject_Z (2 ^ (k + 1)))%Q by ring.
    rewrite value_scaled, half_gap_scaled by exact Hk.
    apply Qle_refl.
  - eapply Qle_trans; [exact Hhi'|].
    rewrite inject_Z_plus.
    setoid_replace ((inject_Z (Z.pos m) * Qpower 2 (- k) + Qpower 2 (- k - 1)) * inject_Z (2 ^ (k + 1)))%Q
      with (inject_Z (Z.pos m) * Qpower 2 (- k) * inject_Z (2 ^ (k + 1))
            + Qpower 2 (- k - 1) * inject_Z (2 ^ (k + 1)))%Q by ring.
    rewrite value_scaled, half_gap_scaled by exact Hk.
    apply Qle_refl.
Qed.

(** *** Candidates that always exist *)

Lemma digits2_pos_log2 (m : positive) :
  Z.pos (digits2_pos m) = Z.log2 (Z.pos m) + 1.
Proof.
  assert (H : forall p, digits2_pos p = Pos.size p).
  { induction p; cbn; congruence. }
  destruct m as [p|p|]; cbn; rewrite ?H; lia.
Qed.

Lemma digits2_pos_53 (m : positive) :
  2 ^ 52 <= Z.pos m < 2 ^ 53 -> Z.pos (digits2_pos m) = 53.
Proof.
  intros H. rewrite digits2_pos_log2.
  rewrite (Z.log2_unique (Z.pos m) 52); lia.
Qed.

Lemma top_exponent_53 (m : positive) (e : Z) :
  2 ^ 52 <= Z.pos m < 2 ^ 53 -> -52 <= e <= -1 ->
  1 <= top_exponent m e <= 17.
Proof.
  intros Hm He. unfold top_exponent. rewrite (digits2_pos_53 m Hm).
  assert (0 <= (e + 53 + 1) * 30103 / 100000 <= 16); [|lia].
  split.
  - apply Z.div_pos; lia.
  - apply Z.div_le_upper_bound; lia.
Qed.

Lemma Qpower_5_cancel (t : Z) :
  0 <= t -> (Qpower 5 (- t) * inject_Z (5 ^ t) == 1)%Q.
Proof.
  intros Ht. rewrite (Zpower_Qpower 5 t Ht).
  change (inject_Z 5) with 5%Q.
  rewrite <- Qpower_plus by discriminate.
  replace (- t + t) with 0 by lia. reflexivity.
Qed.

Lemma Qpower_10_split (j : Z) : (Qpower 10 j == Qpower 2 j * Qpower 5 j)%Q.
Proof.
  rewrite <- Qmult_power. reflexivity.
Qed.

(** The value itself, written in decimal: [m * 2^(-k) = (m * 5^k) * 10^(-k)]. *)
Lemma exact_decimal (m k : Z) :
  0 <= k ->
  (inject_Z (m * 5 ^ k) * Qpower 10 (- k) == inject_Z m * Qpower 2 (- k))%Q.
Proof.
  intros Hk. rewrite inject_Z_mult, Qpower_10_split.
  transitivity (inject_Z m * Qpower 2 (- k) * (Qpower 5 (- k) * inject_Z (5 ^ k)))%Q;
    [ring|].
  rewrite Qpower_5_cancel by exact Hk. ring.
Qed.

Lemma candidate_of_first (m : positive) (e j : Z) :
  let x := (inject_Z (Z.pos m) * Qpower 2 e)%Q in
  let c1 := Qfloor (x / Qpower 10 j) in
  0 < c1 ->
  in_interval (round_interval m e) (inject_Z c1 * Qpower 10 j) = true ->
  candidate m e j <> None.
Proof.
  intros x c1 Hpos Hin. unfold candidate. fold x. fold c1.
  apply Z.ltb_lt in Hpos. rewrite Hpos, Hin. cbn [andb].
  destruct (_ && _); [|discriminate].
  destruct (Qeq_bool _ _); [discriminate|]. destruct (Qle_bool _ _); discriminate.
Qed.

Lemma exact_candidate (m : positive) (k : Z) :
  0 <= k -> candidate m (- k) (- k) <> None.
Proof.
  intros Hk.
  assert (Hp : ~ (Qpower 10 (- k) == 0)%Q) by (apply Qpower_not_0; discriminate).
  assert (Hx : (inject_Z (Z.pos m) * Qpower 2 (- k) / Qpower 10 (- k)
                == inject_Z (Z.pos m * 5 ^ k))%Q).
  { rewrite <- (exact_decimal (Z.pos m) k Hk). field. exact Hp. }
  assert (Hc1 : Qfloor (inject_Z (Z.pos m) * Qpower 2 (- k) / Qpower 10 (- k))
                = Z.pos m * 5 ^ k).
  { rewrite Hx. apply Qfloor_Z. }
  apply candidate_of_first; rewrite Hc1.
  - apply Z.mul_pos_pos; [lia|]. apply Z.pow_pos_nonneg; lia.
  - apply value_in_interval. apply exact_decimal. exact Hk.
Qed.

Lemma integer_candidate (m : positive) (k q : Z) :
  0 <= k -> 0 < q -> Z.pos m = q * 2 ^ k -> candidate m (- k) 0 <> None.
Proof.
  intros Hk Hq Hm.
  assert (Hx : (inject_Z (Z.pos m) * Qpower 2 (- k) == inject_Z q)%Q).
  { rewrite Hm, inject_Z_mult.
    transitivity (inject_Z q * (Qpower 2 (- k) * inject_Z (2 ^ k)))%Q; [ring|].
    rewrite Qpower_2_cancel by exact Hk. ring. }
  assert (Hc1 : Qfloor (inject_Z (Z.pos m) * Qpower 2 (- k) / Qpower 10 0) = q).
  { change (Qpower 10 0) with 1%Q. rewrite Hx.
    setoid_replace (inject_Z q / 1)%Q with (inject_Z q) by field.
    apply Qfloor_Z. }
  apply candidate_of_first; rewrite Hc1.
  - exact Hq.
  - apply value_in_interval. change (Qpower 10 0) with 1%Q. rewrite Hx. ring.
Qed.

(** *** The integer part of the string *)

Lemma decimal_bounds_integer (m : positive) (k c j : Z) :
  0 <= k -> 0 <= j ->
  in_interval (round_interval m (- k)) (inject_Z c * Qpower 10 j) = true ->
  2 * Z.pos m - 1 <= c * 10 ^ j * 2 ^ (k + 1) <= 2 * Z.pos m + 1.
Proof.
  intros Hk Hj H. apply in_interval_scaled in H; [|exact Hk].
  assert (E : (inject_Z c * Qpower 10 j * inject_Z (2 ^ (k + 1))
               == inject_Z (c * 10 ^ j * 2 ^ (k + 1)))%Q).
  { rewrite (Qpower_10_nonneg j Hj), !inject_Z_mult. reflexivity. }
  rewrite E in H. rewrite <- !Zle_Qle in H. exact H.
Qed.

Lemma decimal_bounds_fraction (m : positive) (k c t : Z) :
  0 <= k -> 0 <= t ->
  in_interval (round_interval m (- k)) (inject_Z c * Qpower 10 (- t)) = true ->
  (2 * Z.pos m - 1) * 10 ^ t <= c * 2 ^ (k + 1) <= (2 * Z.pos m + 1) * 10 ^ t.
Proof.
  intros Hk Ht H. apply in_interval_scaled in H; [|exact Hk].
  destruct H as [Hlo Hhi].
  assert (HT : (0 <= inject_Z (10 ^ t))%Q).
  { apply Qlt_le_weak, inject_Z_pow_pos; lia. }
  apply (Qmult_le_compat_r _ _ _ Hlo) in HT as Hlo'.
  apply (Qmult_le_compat_r _ _ _ Hhi) in HT as Hhi'.
  assert (E : (inject_Z c * Qpower 10 (- t) * inject_Z (2 ^ (k + 1)) * inject_Z (10 ^ t)
               == inject_Z (c * 2 ^ (k + 1)))%Q).
  { rewrite inject_Z_mult.
    transitivity (inject_Z c * inject_Z (2 ^ (k + 1))
                  * (Qpower 10 (- t) * inject_Z (10 ^ t)))%Q; [ring|].
    rewrite Qpower_10_cancel by exact Ht. ring. }
  rewrite E in Hlo', Hhi'. rewrite <- inject_Z_mult in Hlo', Hhi'.
  rewrite <- Zle_Qle in Hlo', Hhi'. split; assumption.
Qed.

Lemma format_digits_integer (s : string) (n : Z) :
  1 <= n <= 21 -> Z.of_nat (String.length s) <= n ->
  format_digits s n = s ++ zeros (Z.to_nat (n - Z.of_nat (String.length s))).
Proof.
  intros Hn Hk. unfold format_digits.
  replace (-5 <=? n) with true by (symmetry; apply Z.leb_le; lia).
  replace (n <=? 21) with true by (symmetry; apply Z.leb_le; lia).
  replace (Z.of_nat (String.length s) <=? n) with true
    by (symmetry; apply Z.leb_le; lia).
  reflexivity.
Qed.

Lemma format_digits_fraction (s : string) (n : Z) :
  1 <= n <= 21 -> n < Z.of_nat (String.length s) ->
  format_digits s n =
    substring 0 (Z.to_nat n) s ++ "." ++
    substring (Z.to_nat n) (Z.to_nat (Z.of_nat (String.length s) - n)) s.
Proof.
  intros Hn Hk. unfold format_digits.
  replace (-5 <=? n) with true by (symmetry; apply Z.leb_le; lia).
  replace (n <=? 21) with true by (symmetry; apply Z.leb_le; lia).
  replace (Z.of_nat (String.length s) <=? n) with false
    by (symmetry; apply Z.leb_gt; lia).
  replace (0 <? n) with true by (symmetry; apply Z.ltb_lt; lia).
  reflexivity.
Qed.

(** For a binary64 value [x] in [[1, 2^53)] that is not known to be an
    integer ([e < 0]), reading [String(x)] with [parseInt] gives
    [Math.floor(x)]. *)
Theorem parseInt_toString_floor (m : positive) (e : Z) :
  2 ^ 52 <= Z.pos m < 2 ^ 53 -> -52 <= e <= -1 ->
  parseInt (toString (S754_finite false m e)) =
  Math_floor (S754_finite false m e).
Proof.
  intros Hm He.
  set (k := - e). assert (Hk : 1 <= k <= 52) by (unfold k; lia).
  replace e with (- k) in * by (unfold k; lia).
  set (q := Z.pos m / 2 ^ k).
  assert (H2k : 0 < 2 ^ k) by (apply Z.pow_pos_nonneg; lia).
  assert (H2k52 : 2 ^ k <= 2 ^ 52) by (apply Z.pow_le_mono_r; lia).
  assert (Hq : 1 <= q < 2 ^ 53).
  { unfold q. split.
    - apply Z.div_le_lower_bound; lia.
    - apply Z.div_lt_upper_bound; nia. }
  assert (Hq16 : 0 < q < 10 ^ Z.of_nat 16) by (cbn; cbn in Hq; lia).
  assert (Hdm := Z.div_mod (Z.pos m) (2 ^ k) ltac:(lia)).
  assert (Hr := Z.mod_pos_bound (Z.pos m) (2 ^ k) H2k).
  fold q in Hdm. set (r := Z.pos m mod 2 ^ k) in *.
  (* right-hand side *)
  assert (Hfloor : Math_floor (S754_finite false m (- k)) = of_Z q).
  { unfold Math_floor. replace (0 <=? - k) with false
      by (symmetry; apply Z.leb_gt; lia).
    rewrite Z.opp_involutive. reflexivity. }
  rewrite Hfloor.
  (* the digits *)
  assert (Htop := top_exponent_53 m (- k) Hm He).
  change (toString (S754_finite false m (- k))) with (toString_pos m (- k)).
  unfold toString_pos, shortest_digits.
  replace (Z.min (- k) 0) with (- k) by lia.
  set (top := top_exponent m (- k)) in *.
  set (fuel := (Z.to_nat (top - - k) + 1)%nat).
  destruct (shortest_from fuel m (- k) top) as [[c j]|] eqn:Hs.
  2:{ exfalso. revert Hs.
      apply (shortest_from_finds fuel m (- k) top (- k)).
      - apply exact_candidate. lia.
      - unfold fuel. lia. }
  apply shortest_from_sound in Hs. destruct Hs as (Hc & Hj & Hmin).
  apply candidate_sound in Hc. destruct Hc as [Hcpos Hin].
  cbv zeta.
  destruct (Z_le_gt_dec 0 j) as [Hj0|Hj0].
  - (* an integer *)
    apply decimal_bounds_integer in Hin; [|lia|exact Hj0].
    assert (H10 : 0 < 10 ^ j) by (apply Z.pow_pos_nonneg; lia).
    assert (Hval : Z.pos m = c * 10 ^ j * 2 ^ k).
    { rewrite Z.pow_add_r, Z.pow_1_r in Hin by lia. lia. }
    assert (Hqc : q = c * 10 ^ j).
    { unfold q. rewrite Hval. apply Z.div_mul. lia. }
    destruct (digits_of_prefix (Z.to_nat j) (c * 10 ^ j)) as (b & Hb & Hlb).
    { rewrite Z2Nat.id by lia. nia. }
    rewrite Z2Nat.id, Z.div_mul in Hb by lia.
    assert (Hlen := digits_of_length 16 (c * 10 ^ j) ltac:(rewrite <- Hqc; exact Hq16)).
    rewrite Hb, length_append, Hlb in Hlen.
    assert (Hne := digits_of_nonempty c).
    rewrite format_digits_integer by lia.
    replace (Z.of_nat (String.length (digits_of c)) + j
             - Z.of_nat (String.length (digits_of c))) with j by lia.
    apply parseInt_digits_of with (z := q); [exact Hcpos| |lia].
    rewrite read_digits_zeros, Z2Nat.id by lia. congruence.
  - (* a fraction *)
    set (t := - j). assert (Ht : 0 < t) by (unfold t; lia).
    replace j with (- t) in * by (unfold t; lia).
    apply decimal_bounds_fraction in Hin; [|lia|lia].
    assert (H10 : 0 < 10 ^ t) by (apply Z.pow_pos_nonneg; lia).
    rewrite Z.pow_add_r, Z.pow_1_r in Hin by lia.
    destruct (Z.eq_dec r 0) as [Hr0|Hr0].
    { exfalso. assert (Hnone : candidate m (- k) 0 = None) by (apply Hmin; lia).
      revert Hnone. apply (integer_candidate m k q); lia. }
    assert (Hcq : q * 10 ^ t < c < (q + 1) * 10 ^ t).
    { split.
      - apply Z.mul_lt_mono_pos_r with (p := 2 ^ k * 2); [lia|]. nia.
      - apply Z.mul_lt_mono_pos_r with (p := 2 ^ k * 2); [lia|]. nia. }
    assert (Hdiv : c / 10 ^ t = q).
    { symmetry. apply Z.div_unique with (r := c - q * 10 ^ t); lia. }
    destruct (digits_of_prefix (Z.to_nat t) c) as (b & Hb & Hlb).
    { rewrite Z2Nat.id by lia. nia. }
    rewrite Z2Nat.id, Hdiv in Hb by lia.
    assert (Hlen := digits_of_length 16 q Hq16).
    assert (Hne := digits_of_nonempty q).
    rewrite Hb, length_append, Hlb.
    rewrite format_digits_fraction by (rewrite ?length_append, ?Hlb; lia).
    replace (Z.to_nat (Z.of_nat (String.length (digits_of q) + Z.to_nat t) + - t))
      with (String.length (digits_of q)) by lia.
    rewrite substring_prefix.
    apply parseInt_digits_of with (z := q); [lia| |lia].
    reflexivity.
Qed.

(** *** The quotient by three *)

Lemma loc_of_shr_record_of_loc (m : Z) (l : location) :
  loc_of_shr_record (shr_record_of_loc m l) = l.
Proof. destruct l as [|[]]; reflexivity. Qed.

Lemma shr_m_of_loc (m : Z) (l : location) : shr_m (shr_record_of_loc m l) = m.
Proof. destruct l as [|[]]; reflexivity. Qed.

Lemma Zdigits2_53 (z : Z) : 2 ^ 52 <= z < 2 ^ 53 -> Zdigits2 z = 53.
Proof.
  intros H. destruct z as [|p|p]; try lia. cbn [Zdigits2].
  now apply digits2_pos_53.
Qed.

Lemma Zdigits2_54 (z : Z) : 2 ^ 53 <= z < 2 ^ 54 -> Zdigits2 z = 54.
Proof.
  intros H. destruct z as [|p|p]; try lia. cbn [Zdigits2].
  rewrite digits2_pos_log2. rewrite (Z.log2_unique (Z.pos p) 53); lia.
Qed.

Lemma fexp_normal (z : Z) : -1021 <= z -> fexp prec emax z = z - 53.
Proof. intros H. unfold fexp, emin, prec, emax. lia. Qed.

(** A mantissa of 53 bits is not shifted. *)
Lemma shr_fexp_53 (mz ez : Z) (l : location) :
  2 ^ 52 <= mz < 2 ^ 53 -> -1074 <= ez ->
  shr_fexp prec emax mz ez l = (shr_record_of_loc mz l, ez).
Proof.
  intros Hm He. unfold shr_fexp. rewrite (Zdigits2_53 mz Hm).
  rewrite fexp_normal by lia.
  replace (53 + ez - 53 - ez) with 0 by lia. reflexivity.
Qed.

(** A mantissa of 54 bits is shifted by one bit. *)
Lemma shr_fexp_54 (mz ez : Z) (l : location) :
  2 ^ 53 <= mz < 2 ^ 54 -> -1075 <= ez ->
  shr_fexp prec emax mz ez l = (shr_1 (shr_record_of_loc mz l), ez + 1).
Proof.
  intros Hm He. unfold shr_fexp. rewrite (Zdigits2_54 mz Hm).
  rewrite fexp_normal by lia.
  replace (54 + ez - 53 - ez) with 1 by lia. reflexivity.
Qed.

Lemma round_nearest_even_bounds (m : Z) (l : location) :
  m <= round_nearest_even m l <= m + 1.
Proof.
  destruct l as [|[]]; cbn; try lia. destruct (Z.even m); lia.
Qed.

Lemma shr_1_m (mrs : shr_record) :
  0 < shr_m mrs -> shr_m (shr_1 mrs) = shr_m mrs / 2.
Proof.
  destruct mrs as [m r s]. cbn [shr_m]. intros H.
  destruct m as [|[p|p|]|p]; try lia; cbn [shr_1 shr_m].
  - rewrite Pos2Z.inj_xI. apply Z.div_unique with (r := 1); lia.
  - rewrite Pos2Z.inj_xO. apply Z.div_unique with (r := 0); lia.

  - reflexivity.
Qed.

(** Rounding a mantissa of 53 bits that cannot carry. *)
Lemma binary_round_aux_53 (mz ez : Z) (l : location) :
  2 ^ 52 <= mz <= 2 ^ 53 - 2 -> -1074 <= ez <= 971 ->
  exists m, binary_round_aux prec emax false mz ez l = S754_finite false m ez /\
            2 ^ 52 <= Z.pos m < 2 ^ 53.
Proof.
  intros Hm He. unfold binary_round_aux.
  rewrite shr_fexp_53 by lia.
  rewrite shr_m_of_loc, loc_of_shr_record_of_loc.
  assert (Hr := round_nearest_even_bounds mz l).
  set (m' := round_nearest_even mz l) in *.
  rewrite shr_fexp_53 by lia. cbn [shr_record_of_loc shr_m].
  destruct m' as [|p|p]; try lia.
  replace (ez <=? emax - prec) with true
    by (symmetry; apply Z.leb_le; unfold emax, prec; lia).
  exists p. split; [reflexivity|lia].
Qed.

(** Rounding a mantissa of 54 bits that cannot carry. *)
Lemma binary_round_aux_54 (mz ez : Z) (l : location) :
  2 ^ 53 <= mz <= 2 ^ 54 - 4 -> -1075 <= ez <= 970 ->
  exists m, binary_round_aux prec emax false mz ez l
              = S754_finite false m (ez + 1) /\
            2 ^ 52 <= Z.pos m < 2 ^ 53.
Proof.
  intros Hm He. unfold binary_round_aux.
  rewrite shr_fexp_54 by lia.
  assert (Hs : shr_m (shr_1 (shr_record_of_loc mz l)) = mz / 2).
  { rewrite shr_1_m; rewrite shr_m_of_loc; [reflexivity|lia]. }
  set (mrs := shr_1 (shr_record_of_loc mz l)) in *.
  assert (Hr := round_nearest_even_bounds (shr_m mrs) (loc_of_shr_record mrs)).
  set (m' := round_nearest_even (shr_m mrs) (loc_of_shr_record mrs)) in *.
  rewrite Hs in Hr.
  assert (Hh : 2 ^ 52 <= mz / 2 <= 2 ^ 53 - 2).
  { split; [apply Z.div_le_lower_bound; lia|].
    apply Z.lt_succ_r. apply Z.div_lt_upper_bound; lia. }
  rewrite shr_fexp_53 by lia. cbn [shr_record_of_loc shr_m].
  destruct m' as [|p|p]; try lia.
  replace (ez + 1 <=? emax - prec) with true
    by (symmetry; apply Z.leb_le; unfold emax, prec; lia).
  exists p. split; [reflexivity|lia].
Qed.

Lemma of_Z_3 : of_Z 3 = S754_finite false three_mantissa (-51).
Proof. reflexivity. Qed.

(** The quotient by three of a normal value [ma * 2^ea]: a normal value
    again, one or two binades below. *)
Lemma div_3_shape (ma : positive) (ea : Z) :
  2 ^ 52 <= Z.pos ma < 2 ^ 53 -> -1000 <= ea <= 900 ->
  exists m,
    div (S754_finite false ma ea) (of_Z 3) =
      S754_finite false m
        (if Z.pos ma <? Z.pos three_mantissa then ea - 2 else ea - 1) /\
    2 ^ 52 <= Z.pos m < 2 ^ 53.
Proof.
  intros Hm He. rewrite of_Z_3. unfold div, SFdiv. cbn [xorb].
  unfold SFdiv_core_binary.
  rewrite (Zdigits2_53 (Z.pos ma) Hm).
  change (Zdigits2 (Z.pos three_mantissa)) with 53.
  rewrite fexp_normal by lia.
  replace (Z.min (53 + ea - (53 + -51) - 53) (ea - -51)) with (ea - 2) by lia.
  replace (ea - -51 - (ea - 2)) with 53 by lia.
  rewrite Z.shiftl_mul_pow2 by lia.
  assert (Hdiv := Z.div_eucl_eq (Z.pos ma * 2 ^ 53) (Z.pos three_mantissa)
                    ltac:(discriminate)).
  assert (Hmod := Z.mod_pos_bound (Z.pos ma * 2 ^ 53) (Z.pos three_mantissa)
                    ltac:(reflexivity)).
  unfold Z.modulo in Hmod.
  destruct (Z.div_eucl (Z.pos ma * 2 ^ 53) (Z.pos three_mantissa)) as [q r].
  unfold three_mantissa in *.
  destruct (Z.pos ma <? 6755399441055744) eqn:Hlt.
  - apply Z.ltb_lt in Hlt.
    destruct (binary_round_aux_53 q (ea - 2)
                (new_location 6755399441055744 r)) as (m & Hm1 & Hm2);
      [lia|lia|].
    exists m. split; assumption.
  - apply Z.ltb_ge in Hlt.
    destruct (binary_round_aux_54 q (ea - 2)
                (new_location 6755399441055744 r)) as (m & Hm1 & Hm2);
      [lia|lia|].
    exists m. replace (ea - 1) with (ea - 2 + 1) by lia. split; assumption.
Qed.

(** Where the quotient [amount / 3] is a normal binary64 value in
    [[1, 2^52)], that is [m * 2^e] with a mantissa of 53 bits and
    [-52 <= e <= -1], the bonus is its floor. *)
Lemma bonusValue_is_floor (amount : Number) (m : positive) (e : Z) :
  geb amount (of_Z 3) = true ->
  div amount (of_Z 3) = S754_finite false m e ->
  2 ^ 52 <= Z.pos m < 2 ^ 53 -> -52 <= e <= -1 ->
  bonusValue amount = Math_floor (div amount (of_Z 3)).
Proof.
  intros Hge Hdiv Hm He. unfold bonusValue. rewrite Hge, Hdiv.
  now apply parseInt_toString_floor.
Qed.

(** [x >= y] on two positive finite values. *)
Lemma geb_finite_inv (mx my : positive) (ex ey : Z) :
  geb (S754_finite false mx ex) (S754_finite false my ey) = true ->
  ey <= ex /\ (ex = ey -> Z.pos my <= Z.pos mx).
Proof.
  unfold geb, SFcompare.
  destruct (Z.compare_spec ex ey) as [He|He|He]; try discriminate.
  - change (Pos.compare_cont Eq mx my) with (Pos.compare mx my).
    destruct (Pos.compare_spec mx my) as [Hc|Hc|Hc]; try discriminate;
      intros _; split; lia.
  - intros _. split; lia.
Qed.

(** X18. For every normal binary64 [amount] with [3 <= amount < 2^53],
    the bonus is [Math.floor(amount / 3)]. *)
Theorem bonusValue_floor_of_third (ma : positive) (ea : Z) :
  2 ^ 52 <= Z.pos ma < 2 ^ 53 -> ea <= 0 ->
  geb (S754_finite false ma ea) (of_Z 3) = true ->
  bonusValue (S754_finite false ma ea) =
  Math_floor (div (S754_finite false ma ea) (of_Z 3)).
Proof.
  intros Hm He Hge.
  assert (Hge' := Hge). rewrite of_Z_3 in Hge'.
  apply geb_finite_inv in Hge'. destruct Hge' as [He1 He2].
  destruct (div_3_shape ma ea Hm ltac:(lia)) as (m & Hdiv & Hm').
  apply (bonusValue_is_floor _ m _ Hge Hdiv Hm').
  destruct (Z.pos ma <? Z.pos three_mantissa) eqn:Hlt.
  - apply Z.ltb_lt in Hlt. lia.
  - lia.
Qed.

Local Open Scope list_scope.

(* ===================================================================== *)
(** ** The bonus *)
(* ===================================================================== *)

(** Below 3, and for NaN, the bonus is 0. *)
Lemma bonusValue_below_3 (amount : Number) :
  geb amount (of_Z 3) = false -> bonusValue amount = of_Z 0.
Proof.
  intros H. unfold bonusValue. rewrite H. vm_compute. reflexivity.
Qed.

(** On the quantities the specification lists, the bonus is the floor of
    a third of the quantity, and 0 below 3. *)
Lemma bonusValue_listed_quantities :
  map (fun q => bonusValue (of_Z q)) [0; 1; 2; 3; 4; 5; 6; 9; 10] =
  map of_Z [0; 0; 0; 1; 1; 1; 2; 3; 3].
Proof. vm_compute. reflexivity. Qed.

(** C3, the failing input. For a quantity of 3e21 the third is 1e21,
    whose string is ["1e+21"]; [parseInt] stops at the letter and the
    bonus is 1, not the floor 1e21. *)
Theorem bonusValue_at_3e21 :
  div (of_Z (3 * 10 ^ 21)) (of_Z 3) = of_Z (10 ^ 21) /\
  toString (of_Z (10 ^ 21)) = "1e+21" /\
  bonusValue (of_Z (3 * 10 ^ 21)) = of_Z 1 /\
  Math_floor (div (of_Z (3 * 10 ^ 21)) (of_Z 3)) = of_Z (10 ^ 21) /\
  BigInt (of_Z (10 ^ 21)) = Some (10 ^ 21).
Proof.
  vm_compute. repeat split; reflexivity.
Qed.

(* ===================================================================== *)
(** ** The amount in wei is a floor *)
(* ===================================================================== *)

Lemma Zdigits2_spec (m : Z) :
  0 < m -> 2 ^ (Zdigits2 m - 1) <= m < 2 ^ Zdigits2 m.
Proof.
  intros H. destruct m as [|p|p]; try lia. cbn [Zdigits2].
  rewrite digits2_pos_log2.
  replace (Z.log2 (Z.pos p) + 1 - 1) with (Z.log2 (Z.pos p)) by lia.
  replace (Z.log2 (Z.pos p) + 1) with (Z.succ (Z.log2 (Z.pos p))) by lia.
  apply Z.log2_spec. lia.
Qed.

Lemma shr_1_m_nonneg (mrs : shr_record) :
  0 <= shr_m mrs -> shr_m (shr_1 mrs) = shr_m mrs / 2.
Proof.
  intros H. destruct (Z.eq_dec (shr_m mrs) 0) as [E|E].
  - destruct mrs as [m r s]. cbn in E. subst m. reflexivity.
  - apply shr_1_m. lia.
Qed.

(** Shifting a record by [n] bits divides its mantissa by [2^n]. *)
Lemma iter_pos_shr_m (n : positive) (mrs : shr_record) :
  0 <= shr_m mrs -> shr_m (iter_pos shr_1 n mrs) = shr_m mrs / 2 ^ Z.pos n.
Proof.
  revert mrs.
  assert (Hpos : forall k : positive, 0 < 2 ^ Z.pos k)
    by (intros k; apply Z.pow_pos_nonneg; lia).
  induction n as [n IH|n IH|]; intros mrs H; cbn [iter_pos].
  - assert (H1 : 0 <= shr_m (shr_1 mrs))
      by (rewrite shr_1_m_nonneg by lia; apply Z.div_pos; lia).
    assert (H2 : 0 <= shr_m (iter_pos shr_1 n (shr_1 mrs)))
      by (rewrite IH by lia; apply Z.div_pos; [lia|apply Hpos]).
    rewrite IH by lia. rewrite IH by lia. rewrite shr_1_m_nonneg by lia.
    rewrite Pos2Z.inj_xI.
    replace (2 * Z.pos n + 1) with (1 + Z.pos n + Z.pos n) by lia.
    rewrite !Z.pow_add_r, Z.pow_1_r by lia.
    specialize (Hpos n).
    rewrite !Z.div_div by lia. f_equal. ring.
  - assert (H2 : 0 <= shr_m (iter_pos shr_1 n mrs))
      by (rewrite IH by lia; apply Z.div_pos; [lia|apply Hpos]).
    rewrite IH by lia. rewrite IH by lia.
    specialize (Hpos n).
    rewrite Z.div_div by lia. f_equal.
    rewrite <- Z.pow_add_r by lia. f_equal. lia.
  - rewrite shr_1_m_nonneg by lia. reflexivity.
Qed.

(** Whatever it is given, [shr_fexp] leaves a mantissa of at most 53
    bits. *)
Lemma shr_fexp_m_bound (m e : Z) (l : location) :
  0 <= m -> 0 <= shr_m (fst (shr_fexp prec emax m e l)) < 2 ^ 53.
Proof.
  intros Hm. unfold shr_fexp, shr.
  destruct (Z.eq_dec m 0) as [->|Hn].
  - cbn [Zdigits2].
    destruct (fexp prec emax (0 + e) - e) as [|n|n]; cbn [fst];
      rewrite ?iter_pos_shr_m; rewrite ?shr_m_of_loc; cbn; lia.
  - assert (Hd := Zdigits2_spec m ltac:(lia)).
    set (d := Zdigits2 m) in *.
    assert (Hf : d + e - 53 <= fexp prec emax (d + e))
      by (unfold fexp, prec; lia).
    assert (Hsmall : d <= 53 -> m < 2 ^ 53).
    { intros Hle. apply Z.lt_le_trans with (2 ^ d); [lia|].
      apply Z.pow_le_mono_r; lia. }
    destruct (fexp prec emax (d + e) - e) as [|n|n] eqn:Hn'; cbn [fst];
      rewrite ?shr_m_of_loc.
    + split; [lia|apply Hsmall; lia].
    + rewrite iter_pos_shr_m by (rewrite shr_m_of_loc; lia).
      rewrite shr_m_of_loc.
      assert (Hp : 0 < 2 ^ Z.pos n) by (apply Z.pow_pos_nonneg; lia).
      split; [apply Z.div_pos; lia|].
      apply Z.div_lt_upper_bound; [lia|].
      apply Z.lt_le_trans with (2 ^ d); [lia|].
      rewrite <- Z.pow_add_r by lia.
      apply Z.pow_le_mono_r; lia.
    + split; [lia|apply Hsmall; lia].
Qed.

(** Every finite result of a rounding has a mantissa of at most 53
    bits. *)
Lemma binary_round_aux_fits (s : bool) (m e : Z) (l : location) :
  0 <= m -> mantissa_fits (binary_round_aux prec emax s m e l).
Proof.
  intros Hm. unfold binary_round_aux.
  destruct (shr_fexp prec emax m e l) as [mrs1 e1] eqn:H1.
  assert (B1 := shr_fexp_m_bound m e l Hm). rewrite H1 in B1.
  cbn [fst] in B1.
  assert (Hr := round_nearest_even_bounds (shr_m mrs1)
                  (loc_of_shr_record mrs1)).
  set (m2 := round_nearest_even (shr_m mrs1) (loc_of_shr_record mrs1)) in *.
  destruct (shr_fexp prec emax m2 e1 loc_Exact) as [mrs2 e2] eqn:H2.
  assert (B2 := shr_fexp_m_bound m2 e1 loc_Exact ltac:(lia)).
  rewrite H2 in B2. cbn [fst] in B2. revert B2.
  destruct (shr_m mrs2) as [|q|q]; intros B2; cbn [mantissa_fits]; auto.
  destruct (e2 <=? emax - prec); cbn [mantissa_fits]; auto. lia.
Qed.

Lemma mul_fits (x y : Number) : mantissa_fits (mul x y).
Proof.
  unfold mul, SFmul.
  destruct x as [sx|sx| |sx mx ex], y as [sy|sy| |sy my ey];
    cbn [mantissa_fits]; auto.
  apply binary_round_aux_fits. lia.
Qed.

(** An exact mantissa of 53 bits is kept as it is. *)
Lemma binary_round_aux_exact (s : bool) (m : positive) (e : Z) :
  2 ^ 52 <= Z.pos m < 2 ^ 53 -> -1074 <= e <= 971 ->
  binary_round_aux prec emax s (Z.pos m) e loc_Exact = S754_finite s m e.
Proof.
  intros Hm He. unfold binary_round_aux.
  rewrite shr_fexp_53 by lia.
  cbn [shr_record_of_loc shr_m loc_of_shr_record round_nearest_even].
  rewrite shr_fexp_53 by lia. cbn [shr_record_of_loc shr_m].
  replace (e <=? emax - prec) with true
    by (symmetry; apply Z.leb_le; unfold emax, prec; lia).
  reflexivity.
Qed.

(** An integer below [2^53] in magnitude is normalised without
    rounding: the mantissa is shifted to 53 bits. *)
Lemma binary_round_small (s : bool) (p : positive) :
  Z.pos p < 2 ^ 53 ->
  exists (m : positive) (k : Z),
    0 <= k <= 52 /\ Z.pos m = Z.pos p * 2 ^ k /\
    binary_round prec emax s p 0 = S754_finite s m (- k).
Proof.
  intros Hp. unfold binary_round, shl_align.
  assert (Hd := Zdigits2_spec (Z.pos p) ltac:(lia)). cbn [Zdigits2] in Hd.
  set (d := Z.pos (digits2_pos p)) in *.
  assert (Hd1 : 1 <= d) by (unfold d; lia).
  assert (Hd53 : d <= 53).
  { destruct (Z.le_gt_cases d 53) as [|Hgt]; [assumption|].
    assert (2 ^ 53 <= 2 ^ (d - 1)) by (apply Z.pow_le_mono_r; lia). lia. }
  rewrite fexp_normal by lia.
  destruct (d + 0 - 53 - 0) as [|q|q] eqn:Hq; try lia.
  - exists p, 0. assert (d = 53) by lia. subst d.
    replace (53 - 1) with 52 in Hd by lia. rewrite H in Hd.
    split; [lia|]. split; [lia|].
    apply binary_round_aux_exact; lia.
  - exists (Pos.iter xO p q), (Z.pos q).
    assert (Hm : Z.pos (Pos.iter xO p q) = Z.pos p * 2 ^ Z.pos q).
    { change (Pos.iter xO p q) with (shift_pos q p).
      rewrite shift_pos_correct. rewrite Z.mul_comm. reflexivity. }
    split; [lia|]. split; [exact Hm|].
    replace (d + 0 - 53) with (- Z.pos q) by lia.
    apply binary_round_aux_exact; [|lia].
    rewrite Hm.
    assert (E1 : 2 ^ (d - 1) * 2 ^ Z.pos q = 2 ^ 52)
      by (rewrite <- Z.pow_add_r by lia; f_equal; lia).
    assert (E2 : 2 ^ d * 2 ^ Z.pos q = 2 ^ 53)
      by (rewrite <- Z.pow_add_r by lia; f_equal; lia).
    assert (Hpq : 0 < 2 ^ Z.pos q) by (apply Z.pow_pos_nonneg; lia).
    split.
    + rewrite <- E1. apply Z.mul_le_mono_nonneg_r; lia.
    + rewrite <- E2. apply Z.mul_lt_mono_pos_r; lia.
Qed.

(** [BigInt] reads an integer below [2^53] in magnitude back from its
    Number. *)
Lemma BigInt_of_Z (z : Z) : - 2 ^ 53 < z < 2 ^ 53 -> BigInt (of_Z z) = Some z.
Proof.
  intros Hz. unfold of_Z, binary_normalize.
  destruct z as [|p|p]; [reflexivity| |].
  - destruct (binary_round_small false p ltac:(lia)) as (m & k & Hk & Hm & ->).
    unfold BigInt. rewrite Hm.
    destruct (0 <=? - k) eqn:Hs.
    + apply Z.leb_le in Hs. replace k with 0 by lia. cbn [Z.opp].
      rewrite Z.pow_0_r. f_equal. lia.
    + rewrite Z.opp_involutive.
      assert (Hpk : 2 ^ k <> 0) by (apply Z.pow_nonzero; lia).
      rewrite Z.mod_mul by exact Hpk. cbn [Z.eqb].
      rewrite Z.div_mul by exact Hpk. reflexivity.
  - destruct (binary_round_small true p ltac:(lia)) as (m & k & Hk & Hm & ->).
    unfold BigInt.
    assert (Hn : Z.neg m = Z.neg p * 2 ^ k).
    { rewrite <- !Pos2Z.opp_pos, Hm. ring. }
    rewrite Hn.
    destruct (0 <=? - k) eqn:Hs.
    + apply Z.leb_le in Hs. replace k with 0 by lia. cbn [Z.opp].
      rewrite Z.pow_0_r. f_equal. lia.
    + rewrite Z.opp_involutive.
      assert (Hpk : 2 ^ k <> 0) by (apply Z.pow_nonzero; lia).
      rewrite Z.mod_mul by exact Hpk. cbn [Z.eqb].
      rewrite Z.div_mul by exact Hpk. reflexivity.
Qed.

Lemma Qfloor_unique (q : Q) (z : Z) :
  (inject_Z z <= q)%Q -> (q < inject_Z (z + 1))%Q -> Qfloor q = z.
Proof.
  intros H1 H2. assert (A := Qfloor_le q). assert (B := Qlt_floor q).
  assert (C : (inject_Z z < inject_Z (Qfloor q + 1))%Q)
    by (eapply Qle_lt_trans; eassumption).
  assert (D : (inject_Z (Qfloor q) < inject_Z (z + 1))%Q)
    by (eapply Qle_lt_trans; eassumption).
  rewrite <- Zlt_Qlt in C, D. lia.
Qed.

(** The floor of [v * 2^(-k)] is the quotient of [v] by [2^k]. *)
Lemma Qfloor_scaled (v k : Z) :
  0 <= k -> Qfloor (inject_Z v * Qpower 2 (- k)) = v / 2 ^ k.
Proof.
  intros Hk.
  assert (Hp : 0 < 2 ^ k) by (apply Z.pow_pos_nonneg; lia).
  assert (HP : (0 < inject_Z (2 ^ k))%Q) by (apply inject_Z_pow_pos; lia).
  assert (Hv : (inject_Z v * Qpower 2 (- k) * inject_Z (2 ^ k)
                == inject_Z v)%Q).
  { rewrite <- Qmult_assoc, Qpower_2_cancel by exact Hk. ring. }
  assert (Hdm := Z.div_mod v (2 ^ k) ltac:(lia)).
  assert (Hr := Z.mod_pos_bound v (2 ^ k) Hp).
  apply Qfloor_unique.
  - apply (Qmult_le_r _ _ _ HP). rewrite Hv, <- inject_Z_mult.
    rewrite <- Zle_Qle. lia.
  - apply (Qmult_lt_r _ _ _ HP). rewrite Hv, <- inject_Z_mult.
    rewrite <- Zlt_Qlt. lia.
Qed.

(** [BigInt(Math.floor(x))] is the floor of the real value of [x], for
    every finite [x]; it throws on NaN and the infinities. *)
Lemma BigInt_Math_floor (x : Number) :
  mantissa_fits x ->
  BigInt (Math_floor x) =
  match to_Q x with Some q => Some (Qfloor q) | None => None end.
Proof.
  destruct x as [s|s| |s m e]; try reflexivity.
  cbn [mantissa_fits to_Q]. intros Hm. unfold Math_floor.
  set (v := if s then Z.neg m else Z.pos m).
  assert (Hv : - 2 ^ 53 < v < 2 ^ 53) by (unfold v; destruct s; lia).
  destruct (0 <=? e) eqn:He.
  - apply Z.leb_le in He. unfold BigInt. fold v.
    replace (0 <=? e) with true by (symmetry; apply Z.leb_le; exact He).
    f_equal. replace e with (- - e) at 2 by lia.
    assert (Hq : (inject_Z v * Qpower 2 (- - e) == inject_Z (v * 2 ^ e))%Q).
    { rewrite Z.opp_involutive, inject_Z_mult, (Zpower_Qpower 2 e He).
      reflexivity. }
    rewrite Hq. symmetry. apply Qfloor_Z.
  - apply Z.leb_gt in He.
    assert (Hp : 0 < 2 ^ (- e)) by (apply Z.pow_pos_nonneg; lia).
    rewrite BigInt_of_Z.
    + f_equal. replace e with (- - e) at 2 by lia.
      symmetry. apply Qfloor_scaled. lia.
    + assert (Hdm := Z.div_mod v (2 ^ (- e)) ltac:(lia)).
      assert (Hr := Z.mod_pos_bound v (2 ^ (- e)) Hp).
      assert (H2 : 2 <= 2 ^ (- e)).
      { change 2 with (2 ^ 1) at 1. apply Z.pow_le_mono_r; lia. }
      nia.
Qed.

(** The amount in wei is the floor of the real value of the binary64
    product, and there is none when the product is not finite. *)
Lemma weiValue_is_floor (price amt rate : Number) :
  weiValue price amt rate =
  match to_Q (mul (div (mul price amt) rate) ten_pow_18) with
  | Some q => Some (Qfloor q)
  | None => None
  end.
Proof.
  unfold weiValue. apply BigInt_Math_floor. apply mul_fits.
Qed.

(** C1 as amended. When the conversion step is reached, what is handed to
    the wallet is the floor of the real value of the binary64 Number that
    [((currentPrice * amount) / rate) * 10 ** 18] evaluates to, sent to
    the partner's payment wallet, and nothing is handed over when that
    Number is NaN or infinite; the amount is not negative when price,
    quantity and rate are [>= 0]; and for price 5, quantity 10 and rate
    2000 it is exactly 25000000000000000. *)
Theorem submitted_amount_is_rounded_floor (p : RawProps) (w : World)
  (req : TransferType) (pid : string) (v : Validator) (s : Stored)
  (u : User) (d : PartnerData) (rate : Number) :
  transferSchema_safeParse p = Some req ->
  getPartnerId w = Some pid -> pid <> EmptyString ->
  getPartnerData w pid = Returns (Some v) ->
  gtb (add (amount req) (bonusValue (amount req)))
      (availableSmartNodes v) = false ->
  store_get w (STORAGE_KEY w) = Some s ->
  validateNetwork w "arbitrum" = Returns true ->
  user w = Some u -> data w = Some d ->
  getConversionRate w = Returns rate ->
  submissions (events p w) =
    match to_Q (mul (div (mul (currentPrice d) (amount req)) rate)
                    ten_pow_18) with
    | Some q => [ {| UserOperation.target := paymentsWallet d;
                     UserOperation.data := "0x";
                     UserOperation.value := Qfloor q |} ]
    | None => []
    end /\
  (geb (currentPrice d) (of_Z 0) = true ->
   geb (amount req) (of_Z 0) = true ->
   geb rate (of_Z 0) = true ->
   forall uo, In uo (submissions (events p w)) ->
              0 <= UserOperation.value uo) /\
  weiValue (of_Z 5) (of_Z 10) (of_Z 2000) = Some 25000000000000000.
Proof.
  intros Hparse Hid Hne Hv Hcap Hs Hnet Hu Hd Hrate.
  assert (Hsub := submissions_converted p w req pid v s Hparse Hid Hne Hv
                    Hcap Hs u d rate Hnet Hu Hd Hrate).
  split; [|split].
  - rewrite Hsub, weiValue_is_floor.
    destruct (to_Q (mul (div (mul (currentPrice d) (amount req)) rate)
                        ten_pow_18)); reflexivity.
  - intros Hp Ha Hr uo. rewrite Hsub.
    destruct (weiValue (currentPrice d) (amount req) rate) as [z|] eqn:Hz;
      cbn; [|tauto].
    intros [<-|[]]. exact (weiValue_nonneg _ _ _ _ Hp Ha Hr Hz).
  - vm_compute. reflexivity.
Qed.

(** The scenario of the specification: ten nodes at 5 each, rate 2000. *)
Lemma submitted_amount_is_rounded_floor_witness :
  submissions (events props_10 world_5_2000) =
    [ {| UserOperation.target := "0xPAYMENTS";
         UserOperation.data := "0x";
         UserOperation.value := 25000000000000000 |} ] /\
  (forall uo, In uo (submissions (events props_10 world_5_2000)) ->
              0 <= UserOperation.value uo).
Proof.
  destruct (submitted_amount_is_rounded_floor props_10 world_5_2000
              (parsed 10) "partner-1" {| availableSmartNodes := of_Z 100 |}
              {| stored_email := "user@example.org" |}
              {| address := "0xUSER" |}
              {| currentPrice := of_Z 5; paymentsWallet := "0xPAYMENTS" |}
              (of_Z 2000)
              eq_refl eq_refl ltac:(discriminate) eq_refl
              ltac:(vm_compute; reflexivity) eq_refl
              eq_refl eq_refl eq_refl eq_refl)
    as [Hsub [Hsign _]].
  split.
  - rewrite Hsub. vm_compute. reflexivity.
  - apply Hsign; vm_compute; reflexivity.
Defined.

(** The distance to the exact floor is not a matter of a few units: a
    hundred nodes at 100 with rate 3000 are charged 171 wei more than the
    exact floor, a thousand nodes 2731 wei more. *)
Lemma rounded_amount_far_from_exact_floor :
  weiValue (of_Z 100) (of_Z 100) (of_Z 3000)
    = Some (spec_amount (inject_Z 100) (inject_Z 100) (inject_Z 3000) + 171) /\
  weiValue (of_Z 100) (of_Z 1000) (of_Z 3000)
    = Some (spec_amount (inject_Z 100) (inject_Z 1000) (inject_Z 3000)
            + 2731).
Proof.
  vm_compute. split; reflexivity.
Qed.

(* ===================================================================== *)
(** ** The error paths *)
(* ===================================================================== *)

(** X1. When the wallet call is rejected with an error, [transfer] still
    completes; the message is the funds message if the error is an
    insufficient-funds error, else the rejection message if it is a
    rejected signature, else the purchase message; no referral code is
    asked for, nothing is recorded and [transfer] does not navigate.  The
    one navigation that can still happen is that of the timer of the test
    flag, with the fake bundle, when the query string holds a truthy
    [testSuccessModalOption]; without it the user is not navigated. *)
Theorem wallet_rejection_message (p : RawProps) (w : World)
  (uo : UserOperation.t) (e : JsError) :
  In uo (submissions (events p w)) ->
  sendUserOperationAsync w uo = Rejects e ->
  fst (transfer p w initial) = Normal tt /\
  error (snd (transfer p w initial)) = catch_message w e /\
  loading (snd (transfer p w initial)) = false /\
  occurrences KGetUserReferralCode (events p w) = 0%nat /\
  ledger_records (events p w) = [] /\
  navigations (events p w) = [] /\
  scheduled_navigations w (events p w) =
    match store_get w (STORAGE_KEY w),
          truthy (searchParams_get w testFlag) with
    | Some s, true => [encryptData w "0x123456789abcdef" (stored_email s)]
    | _, _ => []
    end.
Proof.
  intros Hin Hsend.
  unfold catch_message, scheduled_navigations, callback_events.
  unfold_flow.
  all_paths; tidy.
  all: repeat split; reflexivity.
Qed.

(** The wallet reports that the account is out of funds. *)
Lemma wallet_rejection_message_witness :
  fst (transfer props_10 world_out_of_funds initial) = Normal tt /\
  error (snd (transfer props_10 world_out_of_funds initial)) = msg_funds /\
  loading (snd (transfer props_10 world_out_of_funds initial)) = false /\
  occurrences KGetUserReferralCode (events props_10 world_out_of_funds)
    = 0%nat /\
  ledger_records (events props_10 world_out_of_funds) = [] /\
  navigations (events props_10 world_out_of_funds) = [] /\
  scheduled_navigations world_out_of_funds
    (events props_10 world_out_of_funds) = [].
Proof.
  apply (wallet_rejection_message props_10 world_out_of_funds
           operation_example (Rejection "insufficient funds")).
  - vm_compute. left. reflexivity.
  - reflexivity.
Defined.

(** X2. With a valid request and enough capacity but nothing in the
    store under [STORAGE_KEY], the attempt ends with the email message
    after the partner lookup and the read of the store: the network is not
    checked, no timer is registered, nothing else is called. *)
Theorem missing_stored_email_aborts (p : RawProps) (w : World)
  (st : HookState) req pid v :
  transferSchema_safeParse p = Some req ->
  getPartnerId w = Some pid -> pid <> EmptyString ->
  getPartnerData w pid = Returns (Some v) ->
  gtb (add (amount req) (bonusValue (amount req)))
      (availableSmartNodes v) = false ->
  store_get w (STORAGE_KEY w) = None ->
  transfer p w st =
    (Normal tt,
     {| loading := false; error := msg_email;
        beforeunload := beforeunload st;
        log := log st ++ [PreventDefault; GetPartnerData pid;
                          StoreGet (STORAGE_KEY w)] |}).
Proof.
  intros Hp Hid Hne Hd Hcap Hs. unfold_flow. cbn.
  rewrite Hp, Hid, (eqb_empty_false _ Hne), Hd. cbn. rewrite Hcap. cbn.
  rewrite Hs. cbn. repeat rewrite <- app_assoc. reflexivity.
Qed.

Lemma missing_stored_email_aborts_witness :
  transfer props_10 world_no_email initial =
    (Normal tt,
     {| loading := false; error := msg_email; beforeunload := false;
        log := [PreventDefault; GetPartnerData "partner-1";
                StoreGet "smart-nodes"] |}).
Proof.
  apply (missing_stored_email_aborts props_10 world_no_email initial
           (parsed 10) "partner-1" {| availableSmartNodes := of_Z 100 |}).
  - reflexivity.
  - reflexivity.
  - discriminate.
  - reflexivity.
  - vm_compute. reflexivity.
  - reflexivity.
Defined.

(** X3. When the wallet is on another network than arbitrum, the attempt
    ends with the network message: [loading] is cleared, the conversion
    rate is not fetched, the listener is not registered and the wallet is
    not called. *)
Theorem wrong_network_aborts (p : RawProps) (w : World) req pid v s :
  transferSchema_safeParse p = Some req ->
  getPartnerId w = Some pid -> pid <> EmptyString ->
  getPartnerData w pid = Returns (Some v) ->
  gtb (add (amount req) (bonusValue (amount req)))
      (availableSmartNodes v) = false ->
  store_get w (STORAGE_KEY w) = Some s ->
  validateNetwork w "arbitrum" = Returns false ->
  fst (transfer p w initial) = Normal tt /\
  error (snd (transfer p w initial)) = msg_network /\
  loading (snd (transfer p w initial)) = false /\
  beforeunload (snd (transfer p w initial)) = false /\
  without_query_effects (events p w) =
    [PreventDefault; GetPartnerData pid; StoreGet (STORAGE_KEY w);
     ValidateNetwork "arbitrum"].
Proof.
  intros Hp Hid Hne Hd Hcap Hs Hnet. unfold events.
  rewrite (transfer_validated p w req pid v s Hp Hid Hne Hd Hcap Hs).
  unfold_flow. cbn. rewrite Hnet. cbn.
  destruct (truthy (searchParams_get w testFlag)); cbn; repeat split.
Qed.

Lemma wrong_network_aborts_witness :
  fst (transfer props_10 world_wrong_network initial) = Normal tt /\
  error (snd (transfer props_10 world_wrong_network initial))
    = msg_network /\
  loading (snd (transfer props_10 world_wrong_network initial)) = false /\
  beforeunload (snd (transfer props_10 world_wrong_network initial))
    = false /\
  without_query_effects (events props_10 world_wrong_network) =
    [PreventDefault; GetPartnerData "partner-1"; StoreGet "smart-nodes";
     ValidateNetwork "arbitrum"].
Proof.
  apply (wrong_network_aborts props_10 world_wrong_network (parsed 10)
           "partner-1" {| availableSmartNodes := of_Z 100 |}
           {| stored_email := "user@example.org" |}).
  - reflexivity.
  - reflexivity.
  - discriminate.
  - reflexivity.
  - vm_compute. reflexivity.
  - reflexivity.
  - reflexivity.
Defined.

(** X4. [transfer] either completes with [loading] cleared, or it throws;
    when it throws, the request had passed the schema and the partner
    lookup itself was rejected, which happens outside the [try] statement:
    the error escapes, no message is set and [loading] stays true. *)
Theorem completes_or_lookup_rejected (p : RawProps) (w : World) :
  (fst (transfer p w initial) = Normal tt /\
   loading (snd (transfer p w initial)) = false) \/
  (exists e req pid,
     transferSchema_safeParse p = Some req /\
     getPartnerId w = Some pid /\ pid <> EmptyString /\
     getPartnerData w pid = Rejects e /\
     transfer p w initial =
       (Throw e,
        {| loading := true; error := EmptyString; beforeunload := false;
           log := [PreventDefault; GetPartnerData pid] |})).
Proof.
  unfold_flow. all_paths; tidy.
  all: try (left; split; reflexivity).
  right. do 3 eexists. repeat split; try eassumption; try reflexivity.
  intros ->. discriminate.
Qed.

(** X5. In one attempt [transfer] itself performs every kind of action at
    most once: each collaborator is called at most once, at most one timer
    is registered, the listener is added and removed at most once, and
    [transfer] calls [navigate] at most once.  The timer of the test flag
    adds at most one navigation of its own when it fires, and none
    without a truthy [testSuccessModalOption]: the user is navigated at
    most twice, and at most once without the flag. *)
Theorem every_action_at_most_once (p : RawProps) (w : World) (k : Kind) :
  (occurrences k (events p w) <= 1)%nat /\
  (List.length (scheduled_navigations w (events p w))
   <= if truthy (searchParams_get w testFlag) then 1 else 0)%nat.
Proof.
  unfold occurrences, scheduled_navigations, callback_events.
  unfold_flow. all_paths.
  all: split; [destruct k; cbn; lia | cbn; lia].
Qed.

(* ===================================================================== *)
(** ** What a wallet call presupposes *)
(* ===================================================================== *)

(** X6. The wallet is never called on an unvalidated request: whenever an
    operation is handed to it, the schema accepted the request, the
    capacity test of line 52 did not fire (the binary64 sum of the
    quantity and the parsed bonus was not greater than
    [availableSmartNodes], which is not the exact comparison of
    quantity plus bonus with the capacity), an email was stored, the
    network check answered true, user and partner data were there, the
    oracle returned a rate, and the operation transfers [weiValue] with
    empty call data to the partner's payment wallet, right after the
    listener was registered. *)
Theorem submission_presupposes_validation (p : RawProps) (w : World)
  (uo : UserOperation.t) :
  In uo (submissions (events p w)) ->
  exists req pid v s u d rate,
    transferSchema_safeParse p = Some req /\
    getPartnerId w = Some pid /\ pid <> EmptyString /\
    getPartnerData w pid = Returns (Some v) /\
    gtb (add (amount req) (bonusValue (amount req)))
        (availableSmartNodes v) = false /\
    store_get w (STORAGE_KEY w) = Some s /\
    validateNetwork w "arbitrum" = Returns true /\
    user w = Some u /\ data w = Some d /\
    getConversionRate w = Returns rate /\
    weiValue (currentPrice d) (amount req) rate
      = Some (UserOperation.value uo) /\
    UserOperation.target uo = paymentsWallet d /\
    UserOperation.data uo = "0x"%string /\
    exists rest,
      without_query_effects (events p w) =
        [PreventDefault; GetPartnerData pid; StoreGet (STORAGE_KEY w);
         ValidateNetwork "arbitrum"; GetConversionRate;
         AddBeforeUnloadListener; SendUserOperation uo] ++ rest.
Proof.
  intros Hin. unfold weiValue. unfold_flow.
  all_paths; tidy.
  all: do 7 eexists; repeat split; try eassumption; try reflexivity.
  all: try (intros ->; discriminate).
  all: try (destruct a0; [reflexivity|discriminate]).
  all: eexists; reflexivity.
Qed.

Lemma submission_presupposes_validation_witness :
  exists req pid v s u d rate,
    transferSchema_safeParse props_10 = Some req /\
    getPartnerId world_5_2000 = Some pid /\ pid <> EmptyString /\
    getPartnerData world_5_2000 pid = Returns (Some v) /\
    gtb (add (amount req) (bonusValue (amount req)))
        (availableSmartNodes v) = false /\
    store_get world_5_2000 (STORAGE_KEY world_5_2000) = Some s /\
    validateNetwork world_5_2000 "arbitrum" = Returns true /\
    user world_5_2000 = Some u /\ data world_5_2000 = Some d /\
    getConversionRate world_5_2000 = Returns rate /\
    weiValue (currentPrice d) (amount req) rate
      = Some (UserOperation.value operation_example) /\
    UserOperation.target operation_example = paymentsWallet d /\
    UserOperation.data operation_example = "0x"%string /\
    exists rest,
      without_query_effects (events props_10 world_5_2000) =
        [PreventDefault; GetPartnerData pid;
         StoreGet (STORAGE_KEY world_5_2000);
         ValidateNetwork "arbitrum"; GetConversionRate;
         AddBeforeUnloadListener; SendUserOperation operation_example]
        ++ rest.
Proof.
  apply (submission_presupposes_validation props_10 world_5_2000
           operation_example).
  vm_compute. left. reflexivity.
Defined.

(** X7. What the ledger is asked to record: the partner id, the returned
    hash, the totals in fiat and in crypto as the conversion computed
    them, the quantity, bonus plan and referral code of the request, the
    address of the user, the stored email and the referral code just
    issued. *)
Theorem ledger_record_contents (p : RawProps) (w : World) (r : Purchase.t) :
  In r (ledger_records (events p w)) ->
  exists req pid s u d rate uo,
    transferSchema_safeParse p = Some req /\
    getPartnerId w = Some pid /\
    store_get w (STORAGE_KEY w) = Some s /\
    user w = Some u /\ data w = Some d /\
    getConversionRate w = Returns rate /\
    In uo (submissions (events p w)) /\
    sendUserOperationAsync w uo = Returns (Purchase.transactionHash r) /\
    getUserReferralCode w (address u) (stored_email s)
      = Returns (Purchase.userReferralCode r) /\
    Purchase.partnerId r = pid /\
    Purchase.totalInUsd r = mul (currentPrice d) (amount req) /\
    Purchase.totalInEth r
      = div (mul (currentPrice d) (amount req)) rate /\
    Purchase.quantity r = amount req /\
    Purchase.bonusPlan r = bonusPlan req /\
    Purchase.wallet r = address u /\
    Purchase.email r = stored_email s /\
    Purchase.transactionReferralCode r = referralCode req.
Proof.
  intros Hin. unfold_flow.
  all_paths; tidy.
  all: do 7 eexists; repeat split; try eassumption; try reflexivity.
  all: left; reflexivity.
Qed.

Lemma ledger_record_contents_witness :
  exists req pid s u d rate uo,
    transferSchema_safeParse props_10 = Some req /\
    getPartnerId world_5_2000 = Some pid /\
    store_get world_5_2000 (STORAGE_KEY world_5_2000) = Some s /\
    user world_5_2000 = Some u /\ data world_5_2000 = Some d /\
    getConversionRate world_5_2000 = Returns rate /\
    In uo (submissions (events props_10 world_5_2000)) /\
    sendUserOperationAsync world_5_2000 uo
      = Returns (Purchase.transactionHash purchase_example) /\
    getUserReferralCode world_5_2000 (address u) (stored_email s)
      = Returns (Purchase.userReferralCode purchase_example) /\
    Purchase.partnerId purchase_example = pid /\
    Purchase.totalInUsd purchase_example
      = mul (currentPrice d) (amount req) /\
    Purchase.totalInEth purchase_example
      = div (mul (currentPrice d) (amount req)) rate /\
    Purchase.quantity purchase_example = amount req /\
    Purchase.bonusPlan purchase_example = bonusPlan req /\
    Purchase.wallet purchase_example = address u /\
    Purchase.email purchase_example = stored_email s /\
    Purchase.transactionReferralCode purchase_example = referralCode req.
Proof.
  apply (ledger_record_contents props_10 world_5_2000 purchase_example).
  vm_compute. left. reflexivity.
Defined.

(** X8. When the ledger answers with a truthy status the purchase is
    complete: [transfer] returns with no message, [loading] cleared and
    the listener removed, and [transfer] navigates exactly once, with the
    bundle of the returned hash and the stored email.  With a truthy
    [testSuccessModalOption] the timer navigates once more when it fires,
    with the bundle of the fake hash and the same email; without it there
    is no other navigation. *)
Theorem recorded_purchase_completes (p : RawProps) (w : World)
  (r : Purchase.t) :
  In r (ledger_records (events p w)) ->
  purchaseTracker w r = Returns true ->
  transfer p w initial =
    (Normal tt,
     {| loading := false; error := EmptyString; beforeunload := false;
        log := events p w |}) /\
  navigations (events p w) =
    [encryptData w (Purchase.transactionHash r) (Purchase.email r)] /\
  scheduled_navigations w (events p w) =
    (if truthy (searchParams_get w testFlag)
     then [encryptData w "0x123456789abcdef" (Purchase.email r)]
     else []).
Proof.
  intros Hin Htr. unfold scheduled_navigations, callback_events.
  unfold_flow.
  all_paths; tidy.
  all: repeat split; reflexivity.
Qed.

Lemma recorded_purchase_completes_witness :
  transfer props_10 (world_test_flag "1") initial =
    (Normal tt,
     {| loading := false; error := EmptyString; beforeunload := false;
        log := events props_10 (world_test_flag "1") |}) /\
  navigations (events props_10 (world_test_flag "1")) =
    ["0xHASH|user@example.org"%string] /\
  scheduled_navigations (world_test_flag "1")
    (events props_10 (world_test_flag "1")) =
    ["0x123456789abcdef|user@example.org"%string].
Proof.
  apply (recorded_purchase_completes props_10 (world_test_flag "1")
           purchase_example).
  - vm_compute. left. reflexivity.
  - reflexivity.
Defined.

(** X9. No silent failure among the attempts that complete: [transfer]
    returns with an empty message exactly when a purchase was handed to
    the ledger and the ledger answered with a truthy status. *)
Theorem no_message_iff_recorded (p : RawProps) (w : World) :
  (fst (transfer p w initial) = Normal tt /\
   error (snd (transfer p w initial)) = EmptyString) <->
  (exists r, In r (ledger_records (events p w)) /\
             purchaseTracker w r = Returns true).
Proof.
  unfold_flow. all_paths.
  all: split;
    [ intros [H1 H2]; try discriminate;
      try (eexists; split; [left; reflexivity|]; tidy; eassumption)
    | intros (r & Hin & Htr); tidy ].
  all: try (split; reflexivity).
  all: try (destruct a4; [|discriminate]; eexists; split;
            [left; reflexivity|eassumption]).
Qed.

(* ===================================================================== *)
(** ** Invariants of an attempt *)
(* ===================================================================== *)

(** X10. In an attempt that starts with no listener registered, the
    listener on [beforeunload] is still registered when [transfer] returns
    exactly when the wallet was called and [transfer] did not reach its
    own [navigate] call (line 161); an attempt that did not reach the
    wallet leaves none behind. *)
Theorem guard_left_iff_submitted_without_result (p : RawProps) (w : World)
  (st : HookState) :
  beforeunload st = false ->
  (beforeunload (snd (transfer p w st)) = true <->
   (submissions (events p w) <> [] /\ navigations (events p w) = [])).
Proof.
  destruct st as [l0 e0 b0 g0]. cbn [beforeunload]. intros ->.
  unfold_flow. all_paths.
  all: split; [intros H; try discriminate | intros [H1 H2]; try discriminate].
  all: try (split; [discriminate|reflexivity]).
  all: try reflexivity.
  all: try (exfalso; apply H1; reflexivity).
Qed.

Lemma guard_left_iff_submitted_without_result_witness :
  beforeunload (snd (transfer props_10 world_user_rejects initial)) = true <->
  (submissions (events props_10 world_user_rejects) <> [] /\
   navigations (events props_10 world_user_rejects) = []).
Proof.
  apply (guard_left_iff_submitted_without_result props_10 world_user_rejects
           initial).
  reflexivity.
Defined.

(** X11. The message shown at the end of an attempt is always one of
    the eight fixed texts; no detail of an error ever reaches it. *)
Theorem message_is_one_of_the_fixed_texts (p : RawProps) (w : World)
  (st : HookState) :
  In (error (snd (transfer p w st))) messages.
Proof.
  unfold messages. unfold_flow. all_paths.
  all: cbn; tauto.
Qed.

(** X12. The query string decides two things only: the timer of the test
    flag and the [console.log] of the debugging flag. Whatever it holds,
    the attempt completes the same way, with the same message, [loading]
    and listener, and the same other actions in the same order. *)
Theorem query_string_only_adds_timer_and_log (p : RawProps) (w : World)
  (q : string -> option string) :
  fst (transfer p (with_query q w) initial) = fst (transfer p w initial) /\
  error (snd (transfer p (with_query q w) initial))
    = error (snd (transfer p w initial)) /\
  loading (snd (transfer p (with_query q w) initial))
    = loading (snd (transfer p w initial)) /\
  beforeunload (snd (transfer p (with_query q w) initial))
    = beforeunload (snd (transfer p w initial)) /\
  without_query_effects (events p (with_query q w))
    = without_query_effects (events p w).
Proof.
  unfold without_query_effects, with_query. unfold_flow.
  all_paths; tidy.
  all: repeat split; reflexivity.
Qed.



(* ===================================================================== *)
(** ** Failures of the conversion *)
(* ===================================================================== *)

(** X14. Dividing by a conversion rate of zero never yields an amount:
    the quotient is infinite or NaN and [BigInt] throws. *)
Theorem weiValue_zero_rate (price amt : Number) (s : bool) :
  weiValue price amt (S754_zero s) = None.
Proof.
  unfold weiValue.
  assert (H : forall x, match div x (S754_zero s) with
                        | S754_nan | S754_infinity _ => True
                        | _ => False
                        end).
  { intros [sx|sx| |sx mx ex]; exact I. }
  specialize (H (mul price amt)).
  destruct (div (mul price amt) (S754_zero s)); try contradiction;
    reflexivity.
Qed.



(** X16. When the oracle call is rejected, the error is caught: the
    attempt ends with the message the [catch] clause chooses for it,
    before the listener is registered and without any wallet call. *)
Theorem rejected_rate_never_reaches_wallet (p : RawProps) (w : World)
  req pid v s u d e :
  transferSchema_safeParse p = Some req ->
  getPartnerId w = Some pid -> pid <> EmptyString ->
  getPartnerData w pid = Returns (Some v) ->
  gtb (add (amount req) (bonusValue (amount req)))
      (availableSmartNodes v) = false ->
  store_get w (STORAGE_KEY w) = Some s ->
  validateNetwork w "arbitrum" = Returns true ->
  user w = Some u -> data w = Some d ->
  getConversionRate w = Rejects e ->
  fst (transfer p w initial) = Normal tt /\
  error (snd (transfer p w initial)) = catch_message w e /\
  loading (snd (transfer p w initial)) = false /\
  beforeunload (snd (transfer p w initial)) = false /\
  without_query_effects (events p w) =
    [PreventDefault; GetPartnerData pid; StoreGet (STORAGE_KEY w);
     ValidateNetwork "arbitrum"; GetConversionRate].
Proof.
  intros Hp Hid Hne Hd Hcap Hs Hnet Hu Hda Hrate. unfold events.
  rewrite (transfer_validated p w req pid v s Hp Hid Hne Hd Hcap Hs).
  unfold catch_message. unfold_flow. cbn.
  rewrite Hnet, Hu, Hda, Hid, (truthy_Some _ Hne), Hrate. cbn.
  all_paths; repeat split; reflexivity.
Qed.

Lemma rejected_rate_never_reaches_wallet_witness :
  fst (transfer props_10 world_rate_down initial) = Normal tt /\
  error (snd (transfer props_10 world_rate_down initial))
    = catch_message world_rate_down (Rejection "oracle down") /\
  loading (snd (transfer props_10 world_rate_down initial)) = false /\
  beforeunload (snd (transfer props_10 world_rate_down initial)) = false /\
  without_query_effects (events props_10 world_rate_down) =
    [PreventDefault; GetPartnerData "partner-1";
     StoreGet (STORAGE_KEY world_rate_down);
     ValidateNetwork "arbitrum"; GetConversionRate].
Proof.
  apply (rejected_rate_never_reaches_wallet props_10 world_rate_down
           (parsed 10) "partner-1" {| availableSmartNodes := of_Z 100 |}
           {| stored_email := "user@example.org" |}
           {| address := "0xUSER" |}
           {| currentPrice := of_Z 5; paymentsWallet := "0xPAYMENTS" |}
           (Rejection "oracle down")).
  - reflexivity.
  - reflexivity.
  - discriminate.
  - reflexivity.
  - vm_compute. reflexivity.
  - reflexivity.
  - reflexivity.
  - reflexivity.
  - reflexivity.
  - reflexivity.
Defined.

(** X17. Without a signed-in user or without partner data, the attempt
    throws [new Error()] right after the network check: the oracle is not
    asked, the wallet is not called, and the [catch] clause chooses the
    message. *)
Theorem missing_user_or_data_aborts (p : RawProps) (w : World) req pid v s :
  transferSchema_safeParse p = Some req ->
  getPartnerId w = Some pid -> pid <> EmptyString ->
  getPartnerData w pid = Returns (Some v) ->
  gtb (add (amount req) (bonusValue (amount req)))
      (availableSmartNodes v) = false ->
  store_get w (STORAGE_KEY w) = Some s ->
  validateNetwork w "arbitrum" = Returns true ->
  user w = None \/ data w = None ->
  fst (transfer p w initial) = Normal tt /\
  error (snd (transfer p w initial)) = catch_message w NewError /\
  loading (snd (transfer p w initial)) = false /\
  beforeunload (snd (transfer p w initial)) = false /\
  without_query_effects (events p w) =
    [PreventDefault; GetPartnerData pid; StoreGet (STORAGE_KEY w);
     ValidateNetwork "arbitrum"].
Proof.
  intros Hp Hid Hne Hd Hcap Hs Hnet Hmiss. unfold events.
  rewrite (transfer_validated p w req pid v s Hp Hid Hne Hd Hcap Hs).
  unfold catch_message. unfold_flow. cbn.
  rewrite Hnet. cbn.
  destruct Hmiss as [Hm|Hm]; rewrite Hm; cbn.
  - all_paths; repeat split; reflexivity.
  - destruct (user w); cbn; all_paths; repeat split; reflexivity.
Qed.

Lemma missing_user_or_data_aborts_witness :
  fst (transfer props_10 world_signed_out initial) = Normal tt /\
  error (snd (transfer props_10 world_signed_out initial))
    = catch_message world_signed_out NewError /\
  loading (snd (transfer props_10 world_signed_out initial)) = false /\
  beforeunload (snd (transfer props_10 world_signed_out initial)) = false /\
  without_query_effects (events props_10 world_signed_out) =
    [PreventDefault; GetPartnerData "partner-1";
     StoreGet (STORAGE_KEY world_signed_out);
     ValidateNetwork "arbitrum"].
Proof.
  apply (missing_user_or_data_aborts props_10 world_signed_out
           (parsed 10) "partner-1" {| availableSmartNodes := of_Z 100 |}
           {| stored_email := "user@example.org" |}).
  - reflexivity.
  - reflexivity.
  - discriminate.
  - reflexivity.
  - vm_compute. reflexivity.
  - reflexivity.
  - reflexivity.
  - left. reflexivity.
Defined.

(* ===================================================================== *)
(** ** The bonus on ordinary quantities *)
(* ===================================================================== *)

(** Witness of [bonusValue_floor_of_third]: a quantity of 10, which is
    [5629499534213120 * 2^-49], earns a bonus of 3. *)
Lemma bonusValue_floor_of_third_witness :
  S754_finite false 5629499534213120 (-49) = of_Z 10 /\
  bonusValue (S754_finite false 5629499534213120 (-49)) =
  Math_floor (div (S754_finite false 5629499534213120 (-49)) (of_Z 3)) /\
  Math_floor (div (S754_finite false 5629499534213120 (-49)) (of_Z 3))
    = of_Z 3.
Proof.
  split; [vm_compute; reflexivity|]. split.
  - apply (bonusValue_floor_of_third 5629499534213120 (-49)).
    + vm_compute. split; [discriminate | reflexivity].
    + vm_compute. discriminate.
    + vm_compute. reflexivity.
  - vm_compute. reflexivity.
Defined.
